(** * Training pipeline of the bilingual complaint classifier

    A shallow embedding of [src/train/submit_train_pipeline.py] and of
    [src/train/components/hf_model_test.py], and the properties of the
    label maps, of the deployment gate, of the experiment-name sanitizer
    and of the model-testing component that follow from the code.

    Conventions.
    - A Python [str] is a Rocq [string]: a sequence of 8-bit characters,
      read as the code points 0..255 (Latin-1).
    - A Python [dict] is an association list in insertion order without
      repeated keys ([PyDict]).
    - A Python [float] that is only compared is an IEEE-754 value
      ([spec_float]); the metric values computed by scikit-learn are
      exact rationals ([Q]).
    - Effects (HTTP posts, experiment tracker, files, artifacts,
      exceptions) are threaded through the monad [M] of [Py]. *)

From Stdlib Require Import ZArith QArith String Ascii List Lia Bool SpecFloat.
From stdpp Require Import base list strings.

Open Scope string_scope.
Open Scope list_scope.
Open Scope Z_scope.

(** * Part I: the program *)

(** ** Python dictionaries *)

Module PyDict.

Definition dict (K V : Type) : Type := list (K * V).

Section Ops.
Context {K V : Type} `{EqDecision K}.

(** [d[k] = v]: overwrite in place when the key is present, append
    at the end otherwise. *)
Fixpoint set (d : dict K V) (k : K) (v : V) : dict K V :=
  match d with
  | [] => [(k, v)]
  | (k', v') :: d' =>
      if decide (k' = k) then (k', v) :: d' else (k', v') :: set d' k v
  end.

(** [d.get(k)] *)
Fixpoint get (d : dict K V) (k : K) : option V :=
  match d with
  | [] => None
  | (k', v') :: d' => if decide (k' = k) then Some v' else get d' k
  end.

Definition items (d : dict K V) : list (K * V) := d.
Definition keys (d : dict K V) : list K := map fst d.
Definition values (d : dict K V) : list V := map snd d.
Definition len (d : dict K V) : nat := length d.

(** [{k: v for (k, v) in kvs}] *)
Definition comprehension (kvs : list (K * V)) : dict K V :=
  fold_left (fun d kv => set d (fst kv) (snd kv)) kvs [].
End Ops.

(** The indices [0, 1, ..., n-1]. *)
Definition indices (n : nat) : list Z := map Z.of_nat (seq 0 n).

(** [enumerate(l)] *)
Definition enumerate {A : Type} (l : list A) : list (Z * A) :=
  combine (indices (length l)) l.

End PyDict.

(** ** Pipeline submission: [submit_train_pipeline.py] *)

Module Submit.
Import PyDict.

(** Line 179:
    [{label: idx for idx, label in enumerate(unique_label_values)}] *)
Definition label_2_idx_map (unique_label_values : list string)
  : dict string Z :=
  comprehension
    (map (fun '(idx, label) => (label, idx)) (enumerate unique_label_values)).

(** Line 180:
    [{idx: label for label, idx in label_2_idx_map.items()}] *)
Definition idx_2_label_map (label_2_idx : dict string Z) : dict Z string :=
  comprehension
    (map (fun '(label, idx) => (idx, label)) (items label_2_idx)).

(** A scalar read from the YAML configuration. [Null] also stands for
    a key that is absent: [dict.get] returns [None] for it. *)
Inductive yaml : Type :=
| Null
| Bool (b : bool)
| Int (z : Z)
| Float (f : spec_float)
| Str (s : string).

(** The binary64 value 1.0. *)
Definition float_one : spec_float := S754_finite false 4503599627370496 (-52).

(** Python's [v == True]: [True], [1] and [1.0] are equal to [True]. *)
Definition eq_True (v : yaml) : bool :=
  match v with
  | Bool b => b
  | Int z => z =? 1
  | Float f => SFeqb f float_one
  | Null | Str _ => false
  end.

(** The part of the configuration that shapes the task graph. *)
Record config : Type := {
  model_names : list string;            (* model_parms.model_names *)
  deploy : yaml;                        (* deploy_params.deploy *)
  f1_score_threshold : spec_float       (* deploy_params.performance_score_thresholds.f1_score *)
}.

Inductive task : Type :=
| get_data
| prepare_data (dataset_name model_name : string)
| train_huggingface_model (model_name : string)
| test_huggingface_model (model_name : string)
| select_best_model
| detect_bias
| register_model
| deploy_model.

#[global] Instance task_eq_dec : EqDecision task.
Proof. solve_decision. Defined.

(** The guard a task is declared under: none, or
    [dsl.If(best_f1_score > threshold)]. *)
Inductive guard : Type :=
| Unconditional
| If_best_f1_score_gt (threshold : spec_float).

(** Lines 53-106: the body of [dsl.ParallelFor] for one model name. *)
Definition parallel_branch (model_name : string) : list (guard * task) :=
  [ (Unconditional, prepare_data "train" model_name);
    (Unconditional, prepare_data "holdout" model_name);
    (Unconditional, train_huggingface_model model_name);
    (Unconditional, test_huggingface_model model_name) ].

(** Lines 128-151: the deployment branch. *)
Definition deployment_branch (cfg : config) : list (guard * task) :=
  if eq_True (deploy cfg) then
    [ (If_best_f1_score_gt (f1_score_threshold cfg), register_model);
      (If_best_f1_score_gt (f1_score_threshold cfg), deploy_model) ]
  else [].

(** Lines 38-151: the tasks [training_pipeline] declares, each with
    its guard. *)
Definition training_pipeline (cfg : config) : list (guard * task) :=
  [ (Unconditional, get_data) ]
  ++ flat_map parallel_branch (model_names cfg)
  ++ [ (Unconditional, select_best_model); (Unconditional, detect_bias) ]
  ++ deployment_branch cfg.

(** The guard as the execution service evaluates it once
    [select_best_model] has produced [best_f1_score]. *)
Definition guard_holds (best_f1_score : spec_float) (g : guard) : bool :=
  match g with
  | Unconditional => true
  | If_best_f1_score_gt threshold => SFltb threshold best_f1_score
  end.

(** The tasks of a run in which the selected model scored
    [best_f1_score]. *)
Definition triggered (cfg : config) (best_f1_score : spec_float) : list task :=
  map snd
    (List.filter (fun gt => guard_holds best_f1_score (fst gt))
       (training_pipeline cfg)).

(** Deployment happened: the model was registered and deployed. *)
Definition deployment_triggered (cfg : config) (best_f1_score : spec_float)
  : bool :=
  bool_decide (register_model ∈ triggered cfg best_f1_score)
  && bool_decide (deploy_model ∈ triggered cfg best_f1_score).

End Submit.

(** ** Python string operations used by the component *)

Module PyStr.

Fixpoint map_chars (f : ascii -> ascii) (s : string) : string :=
  match s with
  | EmptyString => EmptyString
  | String c s' => String (f c) (map_chars f s')
  end.

Definition code (c : ascii) : N := N_of_ascii c.

Definition in_range (lo hi : N) (c : ascii) : bool :=
  ((lo <=? code c) && (code c <=? hi))%N.

(** [c.lower()] on the code points 0..255: A-Z and the Latin-1
    capitals (192..222 but the multiplication sign 215) move up by
    32; every other character is its own lower case. *)
Definition lower_char (c : ascii) : ascii :=
  if in_range 65 90 c
     || (in_range 192 222 c && negb (code c =? 215)%N)
  then ascii_of_N (code c + 32)
  else c.

(** [s.lower()] *)
Definition lower (s : string) : string := map_chars lower_char s.

(** [s[:n]] *)
Fixpoint take (n : nat) (s : string) : string :=
  match n, s with
  | O, _ => EmptyString
  | _, EmptyString => EmptyString
  | S n', String c s' => String c (take n' s')
  end.

(** [s.rstrip(c)] for a single character [c]. *)
Fixpoint rstrip (x : ascii) (s : string) : string :=
  match s with
  | EmptyString => EmptyString
  | String c s' =>
      match rstrip x s' with
      | EmptyString =>
          if Ascii.eqb c x then EmptyString else String c EmptyString
      | r => String c r
      end
  end.

(** Truth value of a string: empty is false. *)
Definition truthy (s : string) : bool :=
  match s with
  | EmptyString => false
  | String _ _ => true
  end.

(** [os.path.join(a, b)] on POSIX. *)
Definition ends_with_slash (s : string) : bool :=
  match String.get (String.length s - 1) s with
  | Some c => Ascii.eqb c "/"
  | None => false
  end.

Definition starts_with_slash (s : string) : bool :=
  match s with
  | String c _ => Ascii.eqb c "/"
  | EmptyString => false
  end.

Definition path_join (a b : string) : string :=
  if starts_with_slash b then b
  else if negb (truthy a) || ends_with_slash a then a +:+ b
  else a +:+ "/" +:+ b.

(** [os.path.dirname(p)] on POSIX: everything before the last slash,
    with trailing slashes removed unless nothing else is left. *)
Fixpoint head_upto_last_slash (s : string) : string :=
  match s with
  | EmptyString => EmptyString
  | String c s' =>
      match head_upto_last_slash s' with
      | EmptyString =>
          if Ascii.eqb c "/" then String c EmptyString else EmptyString
      | r => String c r
      end
  end.

Definition dirname (p : string) : string :=
  let head := head_upto_last_slash p in
  match rstrip "/" head with
  | EmptyString => head
  | stripped => stripped
  end.

(** Every character of [s] satisfies [p]. *)
Fixpoint all_chars (p : ascii -> bool) (s : string) : bool :=
  match s with
  | EmptyString => true
  | String c s' => p c && all_chars p s'
  end.

(** [s[-1]] when [s] is not empty. *)
Fixpoint last_char (s : string) : option ascii :=
  match s with
  | EmptyString => None
  | String c EmptyString => Some c
  | String _ s' => last_char s'
  end.

End PyStr.

(** ** Python exceptions *)

Module Exn.

(** The exception classes the component can meet. [KeyboardInterrupt]
    and [SystemExit] derive from [BaseException] only; the classes of
    [requests.exceptions] derive from [RequestException]. *)
Inductive cls : Type :=
| KeyboardInterrupt
| SystemExit
| RuntimeError
| ValueError
| TypeError
| OSError
| RequestException
| HTTPError
| ConnectionError
| Timeout.

(** [isinstance(e, Exception)] *)
Definition is_Exception (c : cls) : bool :=
  match c with
  | KeyboardInterrupt | SystemExit => false
  | _ => true
  end.

(** [isinstance(e, requests.exceptions.RequestException)] *)
Definition is_RequestException (c : cls) : bool :=
  match c with
  | RequestException | HTTPError | ConnectionError | Timeout => true
  | _ => false
  end.

Record exn : Type := mk { class : cls; message : string }.

Inductive result (A : Type) : Type :=
| Return (a : A)
| Raise (e : exn).
Arguments Return {A} a.
Arguments Raise {A} e.

End Exn.

(** ** The scikit-learn 1.5.2 metric functions the component calls

    [sklearn.metrics] is an external library; these definitions follow
    its [_classification.py] for the argument patterns the component
    uses. Target-type validation is reduced to the length check of
    [check_consistent_length]. *)

Module Sklearn.
Import Exn.

Definition inconsistent_lengths : exn :=
  mk ValueError "Found input variables with inconsistent numbers of samples".

Section ConfusionMatrix.
Context {L : Type} `{EqDecision L}.

Definition mem (x : L) (l : list L) : bool := bool_decide (x ∈ l).

(** [label_to_ind.get(x, n_labels + 1)] with
    [label_to_ind = {y: x for x, y in enumerate(labels)}] *)
Definition to_index (labels : list L) (x : L) : Z :=
  let label_to_ind :=
    PyDict.comprehension
      (map (fun '(i, y) => (y, i)) (PyDict.enumerate labels)) in
  match PyDict.get label_to_ind x with
  | Some i => i
  | None => Z.of_nat (length labels) + 1
  end.

(** [coo_matrix((ones, (rows, cols)), shape=(n, n)).toarray()]:
    entry (i, j) counts the samples with row i and column j. *)
Definition count_cell (cells : list (Z * Z)) (i j : Z) : Z :=
  Z.of_nat
    (length (List.filter (fun '(r, c) => (r =? i) && (c =? j)) cells)).

Definition coo_toarray (n : nat) (cells : list (Z * Z)) : list (list Z) :=
  map (fun i => map (fun j => count_cell cells (Z.of_nat i) (Z.of_nat j))
                  (seq 0 n))
      (seq 0 n).

(** [confusion_matrix(y_true, y_pred, labels=labels)] *)
Definition confusion_matrix (y_true y_pred labels : list L)
  : result (list (list Z)) :=
  if negb (length y_true =? length y_pred)%nat then Raise inconsistent_lengths
  else
    let n_labels := length labels in
    if (n_labels =? 0)%nat then
      Raise (mk ValueError "'labels' should contains at least one label.")
    else if (length y_true =? 0)%nat then
      Return (coo_toarray n_labels [])
    else if negb (existsb (fun y => mem y labels) y_true) then
      Raise (mk ValueError "At least one label specified must be in y_true")
    else
      let y_pred_ind := map (to_index labels) y_pred in
      let y_true_ind := map (to_index labels) y_true in
      let ind := fun '(t, p) =>
        (p <? Z.of_nat n_labels) && (t <? Z.of_nat n_labels) in
      Return (coo_toarray n_labels
                (List.filter ind (combine y_true_ind y_pred_ind))).
End ConfusionMatrix.

(** [m[i][j]] *)
Definition cell (m : list (list Z)) (i j : nat) : Z := nth j (nth i m []) 0.

(** [unique_labels(y_true, y_pred)]: the labels that occur, sorted,
    each once. *)
Fixpoint insert_unique (x : Z) (l : list Z) : list Z :=
  match l with
  | [] => [x]
  | y :: l' =>
      if x <? y then x :: l
      else if x =? y then l
      else y :: insert_unique x l'
  end.

Definition unique_labels (y_true y_pred : list Z) : list Z :=
  fold_right insert_unique [] (y_true ++ y_pred).

(** Per-label sums of [multilabel_confusion_matrix]. *)
Definition count_if (f : Z * Z -> bool) (y_true y_pred : list Z) : Z :=
  Z.of_nat (length (List.filter f (combine y_true y_pred))).

Definition tp_sum (y_true y_pred : list Z) (l : Z) : Z :=
  count_if (fun '(t, p) => (t =? l) && (p =? l)) y_true y_pred.
Definition pred_sum (y_true y_pred : list Z) (l : Z) : Z :=
  count_if (fun '(t, p) => p =? l) y_true y_pred.
Definition true_sum (y_true y_pred : list Z) (l : Z) : Z :=
  count_if (fun '(t, p) => t =? l) y_true y_pred.

(** [_prf_divide] with [zero_division="warn"]: 0 where the
    denominator is 0. *)
Definition prf_divide (numerator denominator : Z) : Q :=
  if denominator =? 0 then 0%Q
  else (inject_Z numerator / inject_Z denominator)%Q.

Variant metric : Type := Precision | Recall | F1.

Definition label_score (m : metric) (y_true y_pred : list Z) (l : Z) : Q :=
  match m with
  | Precision => prf_divide (tp_sum y_true y_pred l) (pred_sum y_true y_pred l)
  | Recall => prf_divide (tp_sum y_true y_pred l) (true_sum y_true y_pred l)
  | F1 => prf_divide (2 * tp_sum y_true y_pred l)
                     (true_sum y_true y_pred l + pred_sum y_true y_pred l)
  end.

(** [precision_score], [recall_score], [f1_score] with
    [average=None] and no [labels] argument: one entry per label of
    [unique_labels(y_true, y_pred)]. *)
Definition score_per_label (m : metric) (y_true y_pred : list Z)
  : result (list Q) :=
  if negb (length y_true =? length y_pred)%nat then Raise inconsistent_lengths
  else Return (map (label_score m y_true y_pred) (unique_labels y_true y_pred)).

Definition Qsum (l : list Q) : Q := fold_right Qplus 0%Q l.

(** The same with [average='weighted']: the per-label scores
    averaged with the label supports as weights. *)
Definition score_weighted (m : metric) (y_true y_pred : list Z) : result Q :=
  if negb (length y_true =? length y_pred)%nat then Raise inconsistent_lengths
  else
    let labels := unique_labels y_true y_pred in
    let weights := map (true_sum y_true y_pred) labels in
    let total := fold_right Z.add 0 weights in
    if total =? 0 then Return 0%Q
    else
      Return
        (Qsum (map (fun l => (inject_Z (true_sum y_true y_pred l)
                             * label_score m y_true y_pred l)%Q) labels)
         / inject_Z total)%Q.

End Sklearn.

(** ** Effects: a trace of the component's external actions *)

Module Py.
Import Exn.

(** The Slack payload of [send_slack_message] (lines 65-94). *)
Record field : Type := { title : string; value : string; short : bool }.
Record attachment : Type :=
  { color : string; pretext : string; fields : list field }.
Record slack_message : Type := { attachments : list attachment }.

(** [metrics_information] (lines 185-192); the per-label entries are
    the lists that [json.dumps] renders. *)
Record metrics_information : Type := {
  mi_huggingface_model_name : string;
  mi_precision : Q;
  mi_recall : Q;
  mi_f1 : Q;
  mi_precision_per_label : list Q;
  mi_recall_per_label : list Q;
  mi_f1_per_label : list Q
}.

(** The artifact objects the component is handed. *)
Variant artifact : Type := test_data | model | metric | reusable_model | metrics_artifact.

#[global] Instance artifact_eq_dec : EqDecision artifact.
Proof. solve_decision. Defined.

Inductive event : Type :=
| Post (url : string) (json : slack_message)      (* requests.post(url, json=...) *)
| Print (e : exn)                                 (* print(e) *)
| Init (project location experiment : string)     (* aiplatform.init *)
| StartRun (run : string)                         (* aiplatform.start_run *)
| LogMetric (name : string) (v : Q)               (* metric.log_metric *)
| LogClassificationMetrics
    (labels : list string) (matrix : list (list Z)) (display_name : string)
| LogMetrics (m : metrics_information)            (* aiplatform.log_metrics *)
| MakeDirs (path : string)                        (* os.makedirs(path, exist_ok=True) *)
| WriteJson (path : string) (m : metrics_information)
                                                  (* open(path, 'w') and json.dump,
                                                     both completed; what a failed
                                                     dump leaves in the file is not
                                                     recorded *)
| EndRun                                          (* aiplatform.end_run *)
| SetUri (a : artifact) (uri : string)            (* a.uri = uri *)
| Caught (e : exn).                               (* control entered the component's
                                                     [except Exception] block
                                                     (bookkeeping) *)

Definition trace : Type := list event.

(** A computation extends the trace and returns or raises. *)
Definition M (A : Type) : Type := trace -> result A * trace.

Definition ret {A : Type} (a : A) : M A := fun tr => (Return a, tr).
Definition raise {A : Type} (e : exn) : M A := fun tr => (Raise e, tr).
Definition bind {A B : Type} (m : M A) (k : A -> M B) : M B :=
  fun tr =>
    match m tr with
    | (Return a, tr') => k a tr'
    | (Raise e, tr') => (Raise e, tr')
    end.
Definition emit (ev : event) : M unit := fun tr => (Return tt, tr ++ [ev]).
Definition lift {A : Type} (r : result A) : M A := fun tr => (r, tr).

(** [try: m except C as e: handler(e)] where [catches] decides
    [isinstance(e, C)]. *)
Definition try_except {A : Type}
  (m : M A) (catches : cls -> bool) (handler : exn -> M A) : M A :=
  fun tr =>
    match m tr with
    | (Return a, tr') => (Return a, tr')
    | (Raise e, tr') =>
        if catches (class e) then handler e tr' else (Raise e, tr')
    end.

(** A computation that does not read the trace: its result and the
    events it adds are those of a run from the empty trace. *)
Definition oblivious {A : Type} (m : M A) : Prop :=
  forall tr, m tr = (fst (m []), tr ++ snd (m [])).

(** Every event a computation adds satisfies [P]. *)
Definition emits {A : Type} (P : event -> Prop) (m : M A) : Prop :=
  forall tr, exists n, snd (m tr) = tr ++ n /\ Forall P n.

(** What the trace says about files and artifact URIs. *)
Definition is_post (ev : event) : bool :=
  match ev with Post _ _ => true | _ => false end.

Definition posts (tr : trace) : list event := List.filter is_post tr.

Definition is_notification (ev : event) : bool :=
  match ev with Post _ _ | Print _ => true | _ => false end.

Definition is_notification_event (ev : event) : Prop := is_notification ev = true.

(** The trace without the notification side channel. *)
Definition core (tr : trace) : trace :=
  List.filter (fun ev => negb (is_notification ev)) tr.

Fixpoint uri_after (tr : trace) (uri0 : artifact -> string) (a : artifact)
  : string :=
  match tr with
  | [] => uri0 a
  | SetUri b u :: tr' =>
      uri_after tr' (fun c => if decide (c = b) then u else uri0 c) a
  | _ :: tr' => uri_after tr' uri0 a
  end.

Inductive file : Type :=
| Bytes (content : string)
| Json (m : metrics_information).

Fixpoint files_after (tr : trace) (fs0 : string -> option file) (p : string)
  : option file :=
  match tr with
  | [] => fs0 p
  | WriteJson q m :: tr' =>
      files_after tr' (fun r => if decide (r = q) then Some (Json m) else fs0 r) p
  | _ :: tr' => files_after tr' fs0 p
  end.

End Py.

Declare Scope py_scope.
Delimit Scope py_scope with py.
Notation "x <- m ;; k" := (Py.bind m (fun x => k))
  (at level 100, m at next level, right associativity) : py_scope.
Notation "m ;; k" := (Py.bind m (fun _ => k))
  (at level 100, right associativity) : py_scope.

(** ** The model-testing component: [components/hf_model_test.py] *)

Module ModelTest.
Import Exn Py.
Local Open Scope py_scope.

(** The arguments of [test_huggingface_model_component]; an artifact
    argument is given by the URI it holds on entry. *)
Record args : Type := {
  uri0 : artifact -> string;
  project_id : string;
  location : string;
  test_data_name : string;
  label_name : string;
  label_map : PyDict.dict string Z;
  model_save_name : string;
  batch_size : Z;
  max_sequence_length : Z;
  huggingface_model_name : string;
  slack_url : option string
}.

Variant post_result : Type :=
| Response (status_code : Z)
| Fails (e : exn).

Variant external_call : Type :=
| call_init | call_start_run | call_log_metric
| call_log_classification_metrics | call_log_metrics
| call_makedirs | call_open | call_end_run.

(** Everything outside the component that a run depends on. *)
Record world : Type := {
  (** outcome of the n-th [requests.post] of the run *)
  transport : nat -> post_result;
  (** [artifact.path] for an artifact URI *)
  local_path : string -> string;
  (** [start_time.date()], [start_time.time()], [int(time.time())]
      and the minutes elapsed at completion, as [str] renders them *)
  start_date : string;
  start_time : string;
  epoch : string;
  elapsed : string;
  (** TensorFlow and transformers: read the TFRecord file, load the
      pretrained model and the weights, predict; one
      (label, argmax of the logits) pair per test example (Keras
      raises on an empty dataset) *)
  load_and_predict :
    forall (record_path model_path huggingface_model_name : string)
           (num_labels : nat), result (list (Z * Z));
  (** whether a call into the tracker or the file system fails *)
  failure : external_call -> option exn
}.

Record outputs : Type := { precision : Q; recall : Q; f1_score : Q }.

(** An external call: raises what the world says, or is recorded. *)
Definition external (w : world) (c : external_call) (ev : event) : M unit :=
  match failure w c with
  | Some e => raise e
  | None => emit ev
  end.

(** [requests.post(webhook_url, json=message)]: the attempt is
    recorded, its outcome is the transport's. *)
Definition requests_post (w : world) (webhook_url : string)
  (message : slack_message) : M Z :=
  fun tr =>
    match transport w (length (posts tr)) with
    | Response status_code => (Return status_code, tr ++ [Post webhook_url message])
    | Fails e => (Raise e, tr ++ [Post webhook_url message])
    end.

(** [response.raise_for_status()] *)
Definition raise_for_status (status_code : Z) : M unit :=
  if (400 <=? status_code) && (status_code <? 600)
  then raise (mk HTTPError "HTTP error")
  else ret tt.

(** Lines 58-94: the payload. *)
Definition message_of
  (message_str execution_date execution_time duration : string)
  (is_success : bool) : slack_message :=
  let '(color, pretext) :=
    if is_success
    then ("#36a64f", ":large_green_circle: " +:+ message_str)
    else ("FF0000", ":large_red_circle: " +:+ message_str) in
  {| attachments :=
       [ {| color := color;
            pretext := pretext;
            fields :=
              [ {| title := "Component Name";
                   value := "Get Data KubeFlow Component"; short := true |};
                {| title := "Execution Date";
                   value := execution_date; short := true |};
                {| title := "Execution Time";
                   value := execution_time; short := true |};
                {| title := "Duration";
                   value := duration +:+ " minutes"; short := true |} ] |} ] |}.

(** Lines 49-100. *)
Definition send_slack_message (w : world)
  (webhook_url message_str execution_date execution_time duration : string)
  (is_success : bool) : M unit :=
  let message :=
    message_of message_str execution_date execution_time duration is_success in
  try_except
    (response <- requests_post w webhook_url message ;;
     raise_for_status response)
    is_RequestException
    (fun e => emit (Print e)).

(** Lines 102-113. *)
Definition is_name_char (c : ascii) : bool :=
  PyStr.in_range 97 122 c || PyStr.in_range 48 57 c || Ascii.eqb c "-".

Definition starts_alnum (s : string) : bool :=
  match s with
  | String c _ => PyStr.in_range 97 122 c || PyStr.in_range 48 57 c
  | EmptyString => false
  end.

Definition build_experiment_name (experiment_name : string) : string :=
  let name := PyStr.lower experiment_name in
  let name := PyStr.map_chars (fun c => if is_name_char c then c else "-"%char) name in
  let name := if negb (starts_alnum name) then "a" +:+ name else name in
  let name := PyStr.take 128 name in
  let name := PyStr.rstrip "-" name in
  name.

(** The pattern
    [if slack_url: send_slack_message(webhook_url=slack_url, ...,
     execution_date=start_time.date(), execution_time=start_time.time(), ...)]
    of lines 135-140, 209-214 and 221-226. *)
Definition if_slack_url (w : world) (a : args)
  (message_str duration : string) (is_success : bool) : M unit :=
  match slack_url a with
  | Some url =>
      if PyStr.truthy url
      then send_slack_message w url message_str (start_date w) (start_time w)
             duration is_success
      else ret tt
  | None => ret tt
  end.

Definition headline (a : args) (what : string) : string :=
  "KubeFlow Component: Test HuggingFace Model | Model: "
  +:+ huggingface_model_name a +:+ what.

(** scikit-learn's [_check_targets] on the decoded labels: the lengths
    must agree, and a [None] (an index the label map does not know) is
    rejected, as an unknown target type when it comes first and by the
    sort of [np.unique] otherwise. *)
Fixpoint all_str (y : list (option string)) : option (list string) :=
  match y with
  | [] => Some []
  | None :: _ => None
  | Some s :: y' =>
      match all_str y' with Some r => Some (s :: r) | None => None end
  end.

Definition type_of_target (y : list (option string))
  : result (option (list string)) :=
  match y with
  | None :: _ => Return None                       (* "unknown" *)
  | _ =>
      match all_str y with
      | Some labels => Return (Some labels)        (* "binary" or "multiclass" *)
      | None =>
          Raise (mk TypeError
                   "'<' not supported between instances of 'NoneType' and 'str'")
      end
  end.

Definition check_targets (y_true y_pred : list (option string))
  : result (list string * list string) :=
  if negb (length y_true =? length y_pred)%nat
  then Raise Sklearn.inconsistent_lengths
  else
    match type_of_target y_true with
    | Raise e => Raise e
    | Return type_true =>
        match type_of_target y_pred with
        | Raise e => Raise e
        | Return type_pred =>
            match type_true, type_pred with
            | Some t, Some p => Return (t, p)
            | _, _ => Raise (mk ValueError "unknown is not supported")
            end
        end
    end.

(** Lines 163-169. *)
Record classification_metrics : Type :=
  { matrix : list (list Z); labels : list string }.

Definition build_classification_metrics
  (idx_2_label_map : PyDict.dict Z string) (y_true y_pred : list Z)
  : result classification_metrics :=
  let y_true_decoded := map (PyDict.get idx_2_label_map) y_true in
  let y_pred_decoded := map (PyDict.get idx_2_label_map) y_pred in
  match check_targets y_true_decoded y_pred_decoded with
  | Raise e => Raise e
  | Return (t, p) =>
      match Sklearn.confusion_matrix t p (PyDict.values idx_2_label_map) with
      | Raise e => Raise e
      | Return m =>
          Return {| matrix := m; labels := PyDict.values idx_2_label_map |}
      end
  end.

(** The row (and column) of the matrix that counts a class index:
    the index is decoded and the label located among [labels]. *)
Definition matrix_index (idx_2_label_map : PyDict.dict Z string) (idx : Z) : Z :=
  Sklearn.to_index (PyDict.values idx_2_label_map)
    (default "" (PyDict.get idx_2_label_map idx)).

(** Line 123: [{v: k for k, v in label_map.items()}] *)
Definition invert_label_map (label_map : PyDict.dict string Z)
  : PyDict.dict Z string :=
  PyDict.comprehension
    (map (fun '(k, v) => (v, k)) (PyDict.items label_map)).

(** Lines 142-207: load, predict, compute and persist the metrics. *)
Definition evaluate (w : world) (a : args)
  (idx_2_label_map : PyDict.dict Z string) : M outputs :=
  let record_path :=
    PyStr.path_join (local_path w (uri0 a test_data))
      (test_data_name a +:+ ".tfrecord") in
  let model_path :=
    PyStr.path_join (local_path w (uri0 a model))
      (model_save_name a +:+ ".keras") in
  examples <- lift (load_and_predict w record_path model_path
                      (huggingface_model_name a) (PyDict.len (label_map a))) ;;
  let y_true := map fst examples in
  let y_pred := map snd examples in
  classification_metrics <-
    lift (build_classification_metrics idx_2_label_map y_true y_pred) ;;
  precision <- lift (Sklearn.score_weighted Sklearn.Precision y_true y_pred) ;;
  recall <- lift (Sklearn.score_weighted Sklearn.Recall y_true y_pred) ;;
  f1 <- lift (Sklearn.score_weighted Sklearn.F1 y_true y_pred) ;;
  precision_per_label <-
    lift (Sklearn.score_per_label Sklearn.Precision y_true y_pred) ;;
  recall_per_label <-
    lift (Sklearn.score_per_label Sklearn.Recall y_true y_pred) ;;
  f1_per_label <- lift (Sklearn.score_per_label Sklearn.F1 y_true y_pred) ;;
  emit (SetUri reusable_model (uri0 a model)) ;;
  external w call_log_metric (LogMetric "precision" precision) ;;
  external w call_log_metric (LogMetric "recall" recall) ;;
  external w call_log_metric (LogMetric "f1" f1) ;;
  let metrics_information :=
    {| mi_huggingface_model_name := huggingface_model_name a;
       mi_precision := precision;
       mi_recall := recall;
       mi_f1 := f1;
       mi_precision_per_label := precision_per_label;
       mi_recall_per_label := recall_per_label;
       mi_f1_per_label := f1_per_label |} in
  external w call_log_classification_metrics
    (LogClassificationMetrics (labels classification_metrics)
       (matrix classification_metrics)
       (huggingface_model_name a +:+ "-confusion-matrix")) ;;
  external w call_log_metrics (LogMetrics metrics_information) ;;
  let metrics_path := local_path w (uri0 a metrics_artifact) in
  external w call_makedirs (MakeDirs (PyStr.dirname metrics_path)) ;;
  external w call_open (WriteJson metrics_path metrics_information) ;;
  external w call_end_run EndRun ;;
  ret {| precision := precision; recall := recall; f1_score := f1 |}.

(** Lines 135-217: the body of the [try]. *)
Definition try_body (w : world) (a : args)
  (idx_2_label_map : PyDict.dict Z string) : M outputs :=
  if_slack_url w a (headline a " started") "0" true ;;
  output <- evaluate w a idx_2_label_map ;;
  if_slack_url w a (headline a " Successfully Tested") (elapsed w) true ;;
  ret output.

(** Lines 219-227: the [except Exception as e] block
    ([error_message = str(e)] is not used afterwards). *)
Definition except_block (w : world) (a : args) (e : exn) : M outputs :=
  emit (Caught e) ;;
  if_slack_url w a (headline a " Failed to Test") (elapsed w) true ;;
  raise e.

(** Lines 115-227. *)
Definition test_huggingface_model_component (w : world) (a : args)
  : M outputs :=
  let experiment_name :=
    build_experiment_name
      ("exp-" +:+ label_name a +:+ "-" +:+ huggingface_model_name a) in
  external w call_init (Init (project_id a) (location a) experiment_name) ;;
  let experiment_run_id := "run-" +:+ epoch w in
  external w call_start_run (StartRun experiment_run_id) ;;
  let idx_2_label_map := invert_label_map (label_map a) in
  try_except (try_body w a idx_2_label_map) is_Exception (except_block w a).

(** The same world with another notification transport. *)
Definition with_transport (w : world) (t : nat -> post_result) : world :=
  {| transport := t;
     local_path := local_path w;
     start_date := start_date w;
     start_time := start_time w;
     epoch := epoch w;
     elapsed := elapsed w;
     load_and_predict := load_and_predict w;
     failure := failure w |}.

(** A transport fails the way [requests] documents: with a
    [RequestException]. *)
Definition transport_raises_RequestException (t : nat -> post_result) : Prop :=
  forall n e, t n = Fails e -> is_RequestException (class e) = true.

(** The notification endpoint in use: [slack_url] when it is truthy. *)
Definition endpoint (a : args) : option string :=
  match slack_url a with
  | Some url => if PyStr.truthy url then Some url else None
  | None => None
  end.

(** The notification a run attempts for [what], when an endpoint is
    configured. *)
Definition notification (w : world) (a : args)
  (what duration : string) (is_success : bool) : list event :=
  match endpoint a with
  | Some url =>
      [Post url (message_of (headline a what) (start_date w) (start_time w)
                   duration is_success)]
  | None => []
  end.

(** The events lines 142-207 may record. *)
Definition evaluate_event (w : world) (a : args) (ev : event) : Prop :=
  match ev with
  | Post _ _ | Print _ | Caught _ | Init _ _ _ | StartRun _ => False
  | SetUri b u => b = reusable_model /\ u = uri0 a model
  | WriteJson q _ => q = local_path w (uri0 a metrics_artifact)
  | _ => True
  end.

(** The record a successful evaluation persists, and the events it
    records, in order. *)
Definition metrics_record (a : args) (out : outputs)
  (precision_per_label recall_per_label f1_per_label : list Q)
  : metrics_information :=
  {| mi_huggingface_model_name := huggingface_model_name a;
     mi_precision := precision out;
     mi_recall := recall out;
     mi_f1 := f1_score out;
     mi_precision_per_label := precision_per_label;
     mi_recall_per_label := recall_per_label;
     mi_f1_per_label := f1_per_label |}.

Definition success_events (w : world) (a : args)
  (cm : classification_metrics) (out : outputs) (m : metrics_information)
  : list event :=
  [ SetUri reusable_model (uri0 a model);
    LogMetric "precision" (precision out);
    LogMetric "recall" (recall out);
    LogMetric "f1" (f1_score out);
    LogClassificationMetrics (labels cm) (matrix cm)
      (huggingface_model_name a +:+ "-confusion-matrix");
    LogMetrics m;
    MakeDirs (PyStr.dirname (local_path w (uri0 a metrics_artifact)));
    WriteJson (local_path w (uri0 a metrics_artifact)) m;
    EndRun ].

(** The test examples a run evaluates. *)
Definition examples_of (w : world) (a : args) : result (list (Z * Z)) :=
  load_and_predict w
    (PyStr.path_join (local_path w (uri0 a test_data))
       (test_data_name a +:+ ".tfrecord"))
    (PyStr.path_join (local_path w (uri0 a model))
       (model_save_name a +:+ ".keras"))
    (huggingface_model_name a) (PyDict.len (label_map a)).

(** The events the whole component may record: it sets the URI of
    [reusable_model] only, to the URI of [model], and writes the
    metrics file only. *)
Definition component_event (w : world) (a : args) (ev : event) : Prop :=
  match ev with
  | SetUri b u => b = reusable_model /\ u = uri0 a model
  | WriteJson q _ => q = local_path w (uri0 a metrics_artifact)
  | _ => True
  end.

(** The run returned (it did not raise). *)
Definition returns {A : Type} (r : result A) : bool :=
  match r with
  | Return _ => true
  | Raise _ => false
  end.

(** Colors and headlines of the payloads posted, in order. *)
Definition colors (tr : trace) : list string :=
  flat_map (fun ev => match ev with
                      | Post _ json => map color (attachments json)
                      | _ => []
                      end) tr.

Definition pretexts (tr : trace) : list string :=
  flat_map (fun ev => match ev with
                      | Post _ json => map pretext (attachments json)
                      | _ => []
                      end) tr.

(** The outcome of a run from [tr] as the tracker, the file system and
    lines 142-207 determine it; the transport is not consulted. *)
Definition outcome_sans_transport (w : world) (a : args) (tr : trace)
  : result outputs * trace :=
  let experiment_name :=
    build_experiment_name
      ("exp-" +:+ label_name a +:+ "-" +:+ huggingface_model_name a) in
  let init := Init (project_id a) (location a) experiment_name in
  let start_run := StartRun ("run-" +:+ epoch w) in
  match failure w call_init with
  | Some e => (Raise e, core tr)
  | None =>
      match failure w call_start_run with
      | Some e => (Raise e, core tr ++ [init])
      | None =>
          match evaluate w a (invert_label_map (label_map a)) [] with
          | (Return out, mid) => (Return out, core tr ++ [init; start_run] ++ mid)
          | (Raise e, mid) =>
              (Raise e,
               core tr ++ [init; start_run] ++ mid
               ++ (if is_Exception (class e) then [Caught e] else []))
          end
      end
  end.

Definition is_caught (ev : event) : bool :=
  match ev with Caught _ => true | _ => false end.

(** The entries of the [except Exception] block in a trace. *)
Definition caught (tr : trace) : list event := List.filter is_caught tr.

(** The lengths of the per-label arrays of a persisted record. *)
Definition per_label_lengths (f : option file) : option (nat * nat * nat) :=
  match f with
  | Some (Json m) =>
      Some (length (mi_precision_per_label m),
            length (mi_recall_per_label m),
            length (mi_f1_per_label m))
  | _ => None
  end.

(** What a run leaves behind, apart from its notifications. *)
Definition outcome (run : result outputs * trace)
  : result outputs * trace :=
  (fst run, core (snd run)).

End ModelTest.

(** ** Concrete configurations and runs *)

Module Examples.
Import Exn Py ModelTest.

Definition products : list string :=
  ["credit card"; "mortgage"; "student loan"].

Definition label_map3 : PyDict.dict string Z := Submit.label_2_idx_map products.

Definition uris (a : artifact) : string :=
  match a with
  | test_data => "/gcs/run/holdout"
  | model => "/gcs/run/model"
  | metric => "/gcs/run/metric"
  | reusable_model => "/gcs/run/reusable_model"
  | metrics_artifact => "/gcs/run/metrics_artifact"
  end.

Definition args3 (slack : option string) : args :=
  {| uri0 := uris;
     project_id := "complaints";
     location := "us-east1";
     test_data_name := "holdout";
     label_name := "product";
     label_map := label_map3;
     model_save_name := "saved_tf_hf_model";
     batch_size := 8;
     max_sequence_length := 128;
     huggingface_model_name := "bert-base-multilingual-cased";
     slack_url := slack |}.

Definition webhook : string := "https://hooks.slack.com/services/T0/B0/X0".

Definition transport_up : nat -> post_result := fun _ => Response 200.
Definition transport_down : nat -> post_result :=
  fun _ => Fails (mk ConnectionError "webhook unreachable").

(** Four test examples; the label 2 is neither a true nor a predicted
    class. *)
Definition holdout : list (Z * Z) := [(0, 0); (1, 1); (0, 1); (1, 1)].

Definition world_of (t : nat -> post_result)
  (predictions : result (list (Z * Z))) : world :=
  {| transport := t;
     local_path := fun uri => uri;
     start_date := "2024-11-20";
     start_time := "10:15:00";
     epoch := "1732097700";
     elapsed := "12.5";
     load_and_predict := fun _ _ _ _ => predictions;
     failure := fun _ => None |}.

Definition weights_missing : exn := mk OSError "Unable to open the weights file".

Definition good_world : world := world_of transport_up (Return holdout).
Definition failing_world : world := world_of transport_up (Raise weights_missing).

(** Threshold 0.75 as a binary64 value, and the next value above it. *)
Definition f_0_75 : spec_float := S754_finite false 6755399441055744 (-53).
Definition f_0_75_next : spec_float := S754_finite false 6755399441055745 (-53).

Definition deploying : Submit.config :=
  {| Submit.model_names := ["bert-base-multilingual-cased"; "xlm-roberta-base"];
     Submit.deploy := Submit.Bool true;
     Submit.f1_score_threshold := f_0_75 |}.

End Examples.

(** ** What a run computes and what it may post *)

Module RunSpec.
Import Exn Py ModelTest.

(** The triple and the record that lines 142-192 compute from the
    test examples, when every metric function returns. *)
Definition computed_metrics (w : world) (a : args)
  : option (outputs * metrics_information) :=
  match examples_of w a with
  | Raise _ => None
  | Return examples =>
      let y_true := map fst examples in
      let y_pred := map snd examples in
      match Sklearn.score_weighted Sklearn.Precision y_true y_pred,
            Sklearn.score_weighted Sklearn.Recall y_true y_pred,
            Sklearn.score_weighted Sklearn.F1 y_true y_pred,
            Sklearn.score_per_label Sklearn.Precision y_true y_pred,
            Sklearn.score_per_label Sklearn.Recall y_true y_pred,
            Sklearn.score_per_label Sklearn.F1 y_true y_pred with
      | Return precision, Return recall, Return f1,
        Return precision_per_label, Return recall_per_label, Return f1_per_label =>
          let out := {| precision := precision; recall := recall; f1_score := f1 |} in
          Some (out, metrics_record a out precision_per_label recall_per_label
                       f1_per_label)
      | _, _, _, _, _, _ => None
      end
  end.

(** A post goes to the configured endpoint and carries a payload
    built with [is_success = True] and the start date and time. *)
Definition post_event (w : world) (a : args) (ev : event) : Prop :=
  match ev with
  | Post url json =>
      endpoint a = Some url
      /\ exists message_str duration,
           json = message_of message_str (start_date w) (start_time w)
                    duration true
  | _ => True
  end.

End RunSpec.

(** ** Vocabulary for the metric values *)

Module MetricSpec.

(** Strictly increasing. *)
Fixpoint increasing (l : list Z) : bool :=
  match l with
  | x :: (y :: _) as l' => (x <? y) && increasing l'
  | _ => true
  end.

(** The sum of all entries of a matrix. *)
Definition row_total (row : list Z) : Z := fold_right Z.add 0 row.
Definition matrix_total (m : list (list Z)) : Z := row_total (map row_total m).

(** A score between 0 and 1. *)
Definition in_unit_interval (q : Q) : Prop := (0 <= q)%Q /\ (q <= 1)%Q.

End MetricSpec.

(** ** Further configurations and worlds *)

Module MoreExamples.
Import Exn Py ModelTest.

(** The deploy flag written as the string "true": not equal to
    [True]. *)
Definition quoted_flag : Submit.config :=
  {| Submit.model_names := ["bert-base-multilingual-cased"];
     Submit.deploy := Submit.Str "true";
     Submit.f1_score_threshold := Examples.f_0_75 |}.

(** The experiment tracker refuses [aiplatform.init]. *)
Definition tracker_down : exn := mk RuntimeError "tracker unreachable".

Definition tracker_down_world : world :=
  {| transport := Examples.transport_up;
     local_path := fun uri => uri;
     start_date := "2024-11-20";
     start_time := "10:15:00";
     epoch := "1732097700";
     elapsed := "12.5";
     load_and_predict := fun _ _ _ _ => Return Examples.holdout;
     failure := fun c => match c with
                         | call_init => Some tracker_down
                         | _ => None
                         end |}.

(** The run is interrupted while predicting. *)
Definition interrupt : exn := mk KeyboardInterrupt "".

Definition interrupted_world : world :=
  Examples.world_of Examples.transport_up (Raise interrupt).

(** The first post fails outside [requests]' exception hierarchy. *)
Definition not_a_request_exception : exn := mk TypeError "not JSON serializable".

Definition transport_broken : nat -> post_result :=
  fun n => match n with
           | O => Fails not_a_request_exception
           | S _ => Response 200
           end.

Definition broken_transport_world : world :=
  Examples.world_of transport_broken (Return Examples.holdout).

(** The weights file cannot be opened, and the post of the failure
    notice (the second post of the run) fails outside [requests]'
    exception hierarchy. *)
Definition ca_bundle : exn :=
  mk OSError "Could not find a suitable TLS CA certificate bundle".

Definition transport_notice_fails : nat -> post_result :=
  fun n => match n with
           | 1%nat => Fails ca_bundle
           | _ => Response 200
           end.

Definition notice_fails_world : world :=
  Examples.world_of transport_notice_fails (Raise Examples.weights_missing).

(** A label map whose entries are not listed in the order of their
    indices: [{'z': 2, 'y': 1, 'x': 0}]. *)
Definition reversed_label_map : PyDict.dict string Z :=
  [("z", 2); ("y", 1); ("x", 0)].

(** A label map that gives two names the same index:
    [{'a': 0, 'b': 0}]. *)
Definition merged_label_map : PyDict.dict string Z := [("a", 0); ("b", 0)].

End MoreExamples.

(** * Part II: properties *)

(** ** Dictionaries *)

Module PyDictFacts.
Import PyDict.

Section Facts.
Context {K V : Type} `{EqDecision K}.
Implicit Types (d : dict K V) (k : K) (v : V).

Lemma set_fresh d k v :
  ~ In k (keys d) -> set d k v = d ++ [(k, v)].
Proof.
  induction d as [|[k' v'] d IH]; simpl; intros Hk; [reflexivity|].
  destruct (decide (k' = k)) as [->|Hne]; [tauto|].
  rewrite IH; [reflexivity|tauto].
Qed.

Lemma fold_set_distinct (l : list (K * V)) : forall d,
  List.NoDup (keys (d ++ l)) ->
  fold_left (fun d kv => set d (fst kv) (snd kv)) l d = d ++ l.
Proof.
  induction l as [|[k v] l IH]; intros d Hnd; simpl.
  - now rewrite app_nil_r.
  - assert (Hfresh : ~ In k (keys d)).
    { unfold keys in *. rewrite map_app in Hnd. simpl in Hnd.
      apply NoDup_remove_2 in Hnd. rewrite in_app_iff in Hnd. tauto. }
    rewrite (set_fresh d k v Hfresh), IH.
    + now rewrite <- app_assoc.
    + now rewrite <- app_assoc.
Qed.

(** A comprehension over pairwise distinct keys keeps every pair,
    in order. *)
Lemma comprehension_distinct (l : list (K * V)) :
  List.NoDup (map fst l) -> comprehension l = l.
Proof. intros Hnd. unfold comprehension. now rewrite fold_set_distinct. Qed.

Lemma get_Some_In d k v : get d k = Some v -> In (k, v) d.
Proof.
  induction d as [|[k' v'] d IH]; simpl; [discriminate|].
  destruct (decide (k' = k)) as [->|Hne].
  - intros [= ->]. now left.
  - intros Hg. right. now apply IH.
Qed.

Lemma In_get_Some d k v :
  List.NoDup (keys d) -> In (k, v) d -> get d k = Some v.
Proof.
  induction d as [|[k' v'] d IH]; simpl; [tauto|].
  intros Hnd [[= -> ->]|Hin].
  - now destruct (decide (k = k)).
  - inversion Hnd as [|? ? Hk' Hnd']; subst.
    destruct (decide (k' = k)) as [->|Hne].
    + exfalso. apply Hk'. unfold keys.
      change k with (fst (k, v)). now apply in_map.
    + now apply IH.
Qed.

Lemma get_Some_iff d k v :
  List.NoDup (keys d) -> get d k = Some v <-> In (k, v) d.
Proof. intros Hnd. split; [apply get_Some_In | now apply In_get_Some]. Qed.

Lemma get_is_Some d k : is_Some (get d k) <-> In k (keys d).
Proof.
  induction d as [|[k' v'] d IH]; simpl.
  - split; [intros [? [=]] | tauto].
  - destruct (decide (k' = k)) as [->|Hne].
    + split; [now left | now eexists].
    + rewrite IH. split; [now right | intros [?|?]; [contradiction|assumption]].
Qed.
End Facts.

Lemma map_swap_combine {A B : Type} (l : list A) (l' : list B) :
  map (fun '(a, b) => (b, a)) (combine l l') = combine l' l.
Proof.
  revert l'. induction l as [|a l IH]; intros [|b l']; simpl; try reflexivity.
  now rewrite IH.
Qed.

Lemma map_fst_combine {A B : Type} (l : list A) (l' : list B) :
  length l = length l' -> map fst (combine l l') = l.
Proof.
  revert l'. induction l as [|a l IH]; intros [|b l']; simpl; try easy.
  intros [= Hlen]. now rewrite IH.
Qed.

Lemma map_snd_combine {A B : Type} (l : list A) (l' : list B) :
  length l = length l' -> map snd (combine l l') = l'.
Proof.
  revert l'. induction l as [|a l IH]; intros [|b l']; simpl; try easy.
  intros [= Hlen]. now rewrite IH.
Qed.

Lemma In_combine_swap {A B : Type} (l : list A) (l' : list B) a b :
  In (a, b) (combine l l') <-> In (b, a) (combine l' l).
Proof.
  revert l'. induction l as [|x l IH]; intros [|y l']; simpl; try tauto.
  rewrite IH. split; (intros [[= -> ->]|?]; [now left | now right]).
Qed.

Lemma indices_length n : length (indices n) = n.
Proof. unfold indices. now rewrite length_map, length_seq. Qed.

Lemma indices_NoDup n : List.NoDup (indices n).
Proof.
  unfold indices. apply Finite.Injective_map_NoDup; [|apply seq_NoDup].
  intros x y. apply Nat2Z.inj.
Qed.

Lemma In_indices n i : In i (indices n) <-> 0 <= i < Z.of_nat n.
Proof.
  unfold indices. rewrite in_map_iff. split.
  - intros (k & <- & Hk). apply in_seq in Hk. lia.
  - intros Hi. exists (Z.to_nat i). split; [lia|]. apply in_seq. lia.
Qed.

Lemma nth_error_combine_inv {A B : Type} (l : list A) (l' : list B) :
  forall i x y,
    nth_error (combine l l') i = Some (x, y) ->
    nth_error l i = Some x /\ nth_error l' i = Some y.
Proof.
  revert l'. induction l as [|a l IH]; intros [|b l'] [|i] x y; simpl;
    try discriminate.
  - intros [= <- <-]. now split.
  - apply IH.
Qed.

Lemma nth_error_indices_inv n i idx :
  nth_error (indices n) i = Some idx -> idx = Z.of_nat i.
Proof.
  unfold indices. rewrite nth_error_map, nth_error_seq.
  destruct (Nat.ltb i n); simpl; [|discriminate].
  now intros [= <-].
Qed.

End PyDictFacts.

(** ** The label maps *)

Module LabelMapFacts.
Import PyDict PyDictFacts.

Section Distinct.
Variable unique_label_values : list string.
Hypothesis distinct : List.NoDup unique_label_values.

Let K := length unique_label_values.

(** With distinct labels the forward map pairs the i-th label
    with i, in the configured order. *)
Lemma label_2_idx_map_distinct :
  Submit.label_2_idx_map unique_label_values
  = combine unique_label_values (indices K).
Proof using distinct.
  unfold Submit.label_2_idx_map, enumerate.
  rewrite map_swap_combine. apply comprehension_distinct.
  rewrite map_fst_combine; [assumption|]. now rewrite indices_length.
Qed.

Lemma idx_2_label_map_distinct :
  Submit.idx_2_label_map (Submit.label_2_idx_map unique_label_values)
  = combine (indices K) unique_label_values.
Proof using distinct.
  unfold Submit.idx_2_label_map, items.
  rewrite label_2_idx_map_distinct, map_swap_combine.
  apply comprehension_distinct.
  rewrite map_fst_combine; [apply indices_NoDup|]. apply indices_length.
Qed.

Lemma label_2_idx_map_keys :
  keys (Submit.label_2_idx_map unique_label_values) = unique_label_values.
Proof using distinct.
  rewrite label_2_idx_map_distinct. unfold keys.
  apply map_fst_combine. now rewrite indices_length.
Qed.

Lemma label_2_idx_map_values :
  values (Submit.label_2_idx_map unique_label_values) = indices K.
Proof using distinct.
  rewrite label_2_idx_map_distinct. unfold values.
  apply map_snd_combine. now rewrite indices_length.
Qed.

Lemma idx_2_label_map_keys :
  keys (Submit.idx_2_label_map (Submit.label_2_idx_map unique_label_values))
  = indices K.
Proof using distinct.
  rewrite idx_2_label_map_distinct. unfold keys.
  apply map_fst_combine, indices_length.
Qed.

Lemma forward_iff_backward label idx :
  get (Submit.label_2_idx_map unique_label_values) label = Some idx
  <-> get (Submit.idx_2_label_map
             (Submit.label_2_idx_map unique_label_values)) idx = Some label.
Proof using distinct.
  rewrite get_Some_iff by (rewrite label_2_idx_map_keys; exact distinct).
  rewrite get_Some_iff by (rewrite idx_2_label_map_keys; apply indices_NoDup).
  rewrite idx_2_label_map_distinct, label_2_idx_map_distinct.
  apply In_combine_swap.
Qed.
(** X21. The i-th entry of the forward map is the i-th label with the
    index i: the order of the map is dense index order. *)
Lemma label_2_idx_map_dense i label idx :
  nth_error (Submit.label_2_idx_map unique_label_values) i = Some (label, idx) ->
  nth_error unique_label_values i = Some label /\ idx = Z.of_nat i.
Proof using distinct.
  rewrite label_2_idx_map_distinct. intros Hi.
  apply nth_error_combine_inv in Hi as [Hlabel Hidx].
  split; [exact Hlabel|]. now apply nth_error_indices_inv in Hidx.
Qed.

End Distinct.

(** C9. For pairwise distinct configured labels, the label-to-index
    map of the submission script and the index-to-label map derived
    from it (at submission and, by the same comprehension, inside the
    testing component) are mutually inverse: a label is mapped to an
    index exactly when that index is mapped back to the label; the
    labels are exactly the keys of the forward map and 0..K-1 exactly
    the keys of the inverse; so forward-then-inverse is the identity
    on the labels and inverse-then-forward the identity on 0..K-1. *)
Theorem label_maps_mutually_inverse (unique_label_values : list string) :
  List.NoDup unique_label_values ->
  let K := Z.of_nat (length unique_label_values) in
  let label_2_idx := Submit.label_2_idx_map unique_label_values in
  let idx_2_label := Submit.idx_2_label_map label_2_idx in
  ModelTest.invert_label_map label_2_idx = idx_2_label
  /\ (forall label idx,
        get label_2_idx label = Some idx <-> get idx_2_label idx = Some label)
  /\ (forall label,
        In label unique_label_values ->
        get label_2_idx label ≫= get idx_2_label = Some label)
  /\ (forall idx,
        0 <= idx < K ->
        get idx_2_label idx ≫= get label_2_idx = Some idx)
  /\ (forall label,
        is_Some (get label_2_idx label) <-> In label unique_label_values)
  /\ (forall idx, is_Some (get idx_2_label idx) <-> 0 <= idx < K)
  /\ len label_2_idx = length unique_label_values
  /\ len idx_2_label = length unique_label_values.
Proof.
  intros distinct K label_2_idx idx_2_label.
  assert (Hdom : forall label,
             is_Some (get label_2_idx label) <-> In label unique_label_values).
  { intros label. unfold label_2_idx.
    now rewrite get_is_Some, label_2_idx_map_keys. }
  assert (Hcod : forall idx, is_Some (get idx_2_label idx) <-> 0 <= idx < K).
  { intros idx. unfold idx_2_label, label_2_idx.
    rewrite get_is_Some, idx_2_label_map_keys by assumption.
    apply In_indices. }
  assert (Hinv : forall label idx,
             get label_2_idx label = Some idx
             <-> get idx_2_label idx = Some label).
  { intros. now apply forward_iff_backward. }
  split; [reflexivity|].
  split; [exact Hinv|].
  split.
  { intros label Hin. apply Hdom in Hin as [idx Hidx].
    rewrite Hidx. simpl. now apply Hinv. }
  split.
  { intros idx Hidx. apply Hcod in Hidx as [label Hlabel].
    rewrite Hlabel. simpl. now apply Hinv. }
  split; [exact Hdom|].
  split; [exact Hcod|].
  split.
  - unfold label_2_idx, len. rewrite label_2_idx_map_distinct by assumption.
    rewrite length_combine, indices_length. lia.
  - unfold idx_2_label, label_2_idx, len.
    rewrite idx_2_label_map_distinct by assumption.
    rewrite length_combine, indices_length. lia.
Qed.

(** The configured product labels are pairwise distinct. *)
Lemma products_distinct : List.NoDup Examples.products.
Proof.
  unfold Examples.products.
  repeat (constructor; [simpl; intuition discriminate|]). constructor.
Defined.

Lemma label_maps_mutually_inverse_witness :
  List.NoDup Examples.products
  /\ (forall label idx,
        get (Submit.label_2_idx_map Examples.products) label = Some idx
        <-> get (Submit.idx_2_label_map
                   (Submit.label_2_idx_map Examples.products)) idx = Some label).
Proof.
  split; [exact products_distinct|].
  exact (proj1 (proj2 (label_maps_mutually_inverse Examples.products
                         products_distinct))).
Defined.

End LabelMapFacts.

(** ** The deployment gate *)

Module SubmitFacts.
Import Submit.

Lemma compare_cont_Eq_sym (m1 m2 : positive) :
  Pos.compare_cont Eq m1 m2 = Eq -> Pos.compare_cont Eq m2 m1 = Eq.
Proof.
  change (Pos.compare_cont Eq m1 m2) with (Pos.compare m1 m2).
  change (Pos.compare_cont Eq m2 m1) with (Pos.compare m2 m1).
  rewrite !Pos.compare_eq_iff. congruence.
Qed.

(** Equal floats are not ordered: [a == b] excludes [b < a]. *)
Lemma SFeqb_not_SFltb (a b : spec_float) :
  SFeqb a b = true -> SFltb b a = false.
Proof.
  unfold SFeqb, SFltb.
  destruct a as [sa|sa| |sa ma ea], b as [sb|sb| |sb mb eb];
    simpl; try discriminate; try reflexivity;
    try (destruct sa; discriminate); try (destruct sb; discriminate).
  - destruct sa, sb; try discriminate; reflexivity.
  - destruct sa, sb; try discriminate.
    + destruct (Z.compare ea eb) eqn:He; try discriminate.
      apply Z.compare_eq_iff in He as ->. rewrite Z.compare_refl.
      destruct (Pos.compare_cont Eq ma mb) eqn:Hm; try discriminate.
      intros _. now rewrite (compare_cont_Eq_sym _ _ Hm).
    + destruct (Z.compare ea eb) eqn:He; try discriminate.
      apply Z.compare_eq_iff in He as ->. rewrite Z.compare_refl.
      destruct (Pos.compare_cont Eq ma mb) eqn:Hm; try discriminate.
      intros _. now rewrite (compare_cont_Eq_sym _ _ Hm).
Qed.

Lemma guarded_in_parallel_branches (names : list string) g t :
  In (g, t) (flat_map parallel_branch names) -> g = Unconditional.
Proof.
  rewrite in_flat_map. intros (name & _ & Hin). simpl in Hin.
  intuition congruence.
Qed.

(** A task declared under the score guard runs exactly when the
    run's score satisfies the guard. *)
Lemma guarded_task_triggered (cfg : config) (score : spec_float) (t : task) :
  (forall g, In (g, t) (training_pipeline cfg) ->
             g = If_best_f1_score_gt (f1_score_threshold cfg)) ->
  (exists g, In (g, t) (training_pipeline cfg)) ->
  In t (triggered cfg score) <-> SFltb (f1_score_threshold cfg) score = true.
Proof.
  intros Honly [g Hin]. unfold triggered. rewrite in_map_iff. split.
  - intros ([g' t'] & Ht & Hf). simpl in Ht. subst t'.
    apply filter_In in Hf as [Hin' Hg]. simpl in Hg.
    now rewrite (Honly _ Hin') in Hg.
  - intros Hlt. exists (g, t). split; [reflexivity|].
    apply filter_In. split; [assumption|]. simpl.
    now rewrite (Honly _ Hin).
Qed.

Lemma deployment_tasks_guarded (cfg : config) (t : task) g :
  t = register_model \/ t = deploy_model ->
  In (g, t) (training_pipeline cfg) ->
  g = If_best_f1_score_gt (f1_score_threshold cfg).
Proof.
  intros Ht. unfold training_pipeline, deployment_branch.
  rewrite !in_app_iff. intros [Hin|[Hin|[Hin|Hin]]].
  - simpl in Hin. destruct Ht; subst; intuition congruence.
  - rewrite in_flat_map in Hin. destruct Hin as (name & _ & Hin).
    simpl in Hin. destruct Ht; subst; intuition congruence.
  - simpl in Hin. destruct Ht; subst; intuition congruence.
  - destruct (eq_True (deploy cfg)); simpl in Hin; intuition congruence.
Qed.

Lemma deployment_tasks_declared (cfg : config) (t : task) :
  eq_True (deploy cfg) = true ->
  t = register_model \/ t = deploy_model ->
  In (If_best_f1_score_gt (f1_score_threshold cfg), t) (training_pipeline cfg).
Proof.
  intros Hdeploy Ht. unfold training_pipeline, deployment_branch.
  rewrite Hdeploy, !in_app_iff. right; right; right. simpl.
  destruct Ht; subst; tauto.
Qed.

(** C1. With the deploy flag enabled, registration and endpoint
    deployment run exactly when [best_f1_score > threshold]: a score
    above the threshold triggers both, and a score equal to the
    threshold triggers neither. *)
Theorem deployment_gated_on_strict_threshold
  (cfg : config) (best_f1_score : spec_float) :
  eq_True (deploy cfg) = true ->
  (In register_model (triggered cfg best_f1_score)
   <-> SFltb (f1_score_threshold cfg) best_f1_score = true)
  /\ (In deploy_model (triggered cfg best_f1_score)
      <-> SFltb (f1_score_threshold cfg) best_f1_score = true)
  /\ (deployment_triggered cfg best_f1_score
      = SFltb (f1_score_threshold cfg) best_f1_score)
  /\ (SFeqb best_f1_score (f1_score_threshold cfg) = true ->
      deployment_triggered cfg best_f1_score = false
      /\ ~ In register_model (triggered cfg best_f1_score)
      /\ ~ In deploy_model (triggered cfg best_f1_score)).
Proof.
  intros Hdeploy.
  assert (Hreg : In register_model (triggered cfg best_f1_score)
                 <-> SFltb (f1_score_threshold cfg) best_f1_score = true).
  { apply guarded_task_triggered.
    - intros g. apply deployment_tasks_guarded. now left.
    - eexists. apply deployment_tasks_declared; [assumption|now left]. }
  assert (Hdep : In deploy_model (triggered cfg best_f1_score)
                 <-> SFltb (f1_score_threshold cfg) best_f1_score = true).
  { apply guarded_task_triggered.
    - intros g. apply deployment_tasks_guarded. now right.
    - eexists. apply deployment_tasks_declared; [assumption|now right]. }
  assert (Hboth : deployment_triggered cfg best_f1_score
                  = SFltb (f1_score_threshold cfg) best_f1_score).
  { unfold deployment_triggered.
    destruct (SFltb (f1_score_threshold cfg) best_f1_score) eqn:Hlt.
    - rewrite !bool_decide_eq_true_2; [reflexivity| |];
        apply list_elem_of_In; tauto.
    - rewrite bool_decide_eq_false_2; [reflexivity|].
      rewrite list_elem_of_In, Hreg. discriminate. }
  split; [exact Hreg|]. split; [exact Hdep|]. split; [exact Hboth|].
  intros Heq. apply SFeqb_not_SFltb in Heq.
  rewrite Hboth, Hreg, Hdep, Heq. repeat split; discriminate.
Qed.

Lemma deployment_gated_on_strict_threshold_witness :
  eq_True (deploy Examples.deploying) = true
  /\ deployment_triggered Examples.deploying Examples.f_0_75 = false
  /\ deployment_triggered Examples.deploying Examples.f_0_75_next = true.
Proof.
  split; [reflexivity|]. split.
  - apply (deployment_gated_on_strict_threshold
             Examples.deploying Examples.f_0_75 eq_refl).
    reflexivity.
  - rewrite (proj1 (proj2 (proj2 (deployment_gated_on_strict_threshold
               Examples.deploying Examples.f_0_75_next eq_refl)))).
    reflexivity.
Defined.

End SubmitFacts.

(** ** The experiment-name sanitizer *)

Module NameFacts.
Import PyStr ModelTest.

Lemma all_chars_substituted (s : string) :
  all_chars is_name_char
    (map_chars (fun c => if is_name_char c then c else "-"%char) s) = true.
Proof.
  induction s as [|c s IH]; simpl; [reflexivity|].
  rewrite IH, andb_true_r.
  destruct (is_name_char c) eqn:Hc; [exact Hc | reflexivity].
Qed.

Lemma all_chars_take p n : forall s,
  all_chars p s = true -> all_chars p (take n s) = true.
Proof.
  induction n as [|n IH]; intros [|c s]; simpl; try reflexivity.
  rewrite !andb_true_iff. intros [Hc Hs]. auto.
Qed.

Lemma length_take n : forall s, (String.length (take n s) <= n)%nat.
Proof.
  induction n as [|n IH]; intros [|c s]; simpl; try lia.
  specialize (IH s). lia.
Qed.

Lemma starts_alnum_take n s :
  starts_alnum s = true -> starts_alnum (take (S n) s) = true.
Proof. destruct s; simpl; auto. Qed.

Lemma all_chars_rstrip p x : forall s,
  all_chars p s = true -> all_chars p (rstrip x s) = true.
Proof.
  induction s as [|c s IH]; simpl; [reflexivity|].
  rewrite andb_true_iff. intros [Hc Hs]. specialize (IH Hs).
  destruct (rstrip x s) eqn:Hr.
  - destruct (Ascii.eqb c x); simpl; [reflexivity|now rewrite Hc].
  - simpl in *. now rewrite Hc.
Qed.

Lemma length_rstrip x : forall s,
  (String.length (rstrip x s) <= String.length s)%nat.
Proof.
  induction s as [|c s IH]; simpl; [lia|].
  destruct (rstrip x s) eqn:Hr.
  - destruct (Ascii.eqb c x); simpl; lia.
  - simpl in *. lia.
Qed.

(** What [rstrip] leaves does not end with the stripped character. *)
Lemma last_char_rstrip x : forall s, last_char (rstrip x s) <> Some x.
Proof.
  induction s as [|c s IH]; simpl; [discriminate|].
  destruct (rstrip x s) eqn:Hr.
  - destruct (Ascii.eqb c x) eqn:Hc; simpl; [discriminate|].
    intros [= ->]. now rewrite Ascii.eqb_refl in Hc.
  - exact IH.
Qed.

Lemma hyphen_not_alnum c :
  in_range 97 122 c || in_range 48 57 c = true -> Ascii.eqb c "-" = false.
Proof.
  intros Hc. destruct (Ascii.eqb c "-") eqn:He; [|reflexivity].
  apply Ascii.eqb_eq in He. subst c. discriminate Hc.
Qed.

(** A leading letter or digit survives [rstrip('-')]. *)
Lemma starts_alnum_rstrip s :
  starts_alnum s = true -> starts_alnum (rstrip "-" s) = true.
Proof.
  destruct s as [|c s]; simpl; [discriminate|]. intros Hc.
  destruct (rstrip "-" s).
  - now rewrite (hyphen_not_alnum c Hc).
  - exact Hc.
Qed.

Lemma starts_alnum_nonempty s : starts_alnum s = true -> s <> "".
Proof. destruct s; [discriminate|discriminate]. Qed.

(** C10. For every input string the sanitized experiment name is not
    empty, has at most 128 characters, consists of lowercase letters,
    digits and hyphens only, begins with a lowercase letter or a digit
    and does not end with a hyphen. *)
Theorem build_experiment_name_valid (experiment_name : string) :
  let name := build_experiment_name experiment_name in
  name <> ""
  /\ (String.length name <= 128)%nat
  /\ all_chars is_name_char name = true
  /\ starts_alnum name = true
  /\ last_char name <> Some "-"%char.
Proof.
  unfold build_experiment_name. cbv zeta.
  set (substituted :=
         map_chars (fun c => if is_name_char c then c else "-"%char)
           (lower experiment_name)).
  set (prefixed :=
         if negb (starts_alnum substituted) then "a" +:+ substituted
         else substituted).
  assert (Hchars : all_chars is_name_char prefixed = true).
  { unfold prefixed. pose proof (all_chars_substituted (lower experiment_name)) as H.
    fold substituted in H.
    destruct (starts_alnum substituted); simpl; [exact H|].
    change (all_chars is_name_char substituted = true). exact H. }
  assert (Hstart : starts_alnum prefixed = true).
  { unfold prefixed. destruct (starts_alnum substituted) eqn:Hs; simpl;
      [exact Hs|reflexivity]. }
  assert (Hstart' : starts_alnum (rstrip "-" (take 128 prefixed)) = true).
  { apply starts_alnum_rstrip. now apply (starts_alnum_take 127). }
  split; [now apply starts_alnum_nonempty|].
  split.
  { etransitivity; [apply length_rstrip|apply length_take]. }
  split.
  { now apply all_chars_rstrip, all_chars_take. }
  split; [exact Hstart'|].
  apply last_char_rstrip.
Qed.

End NameFacts.

(** ** The confusion matrix *)

Module ConfusionMatrixFacts.
Import Exn PyDict PyDictFacts Sklearn ModelTest.

Lemma coo_toarray_length n cells : length (coo_toarray n cells) = n.
Proof. unfold coo_toarray. now rewrite length_map, length_seq. Qed.

Lemma coo_toarray_row_length n cells :
  Forall (fun row => length row = n) (coo_toarray n cells).
Proof.
  unfold coo_toarray. apply List.Forall_forall. intros row Hrow.
  apply in_map_iff in Hrow as (i & <- & _).
  now rewrite length_map, length_seq.
Qed.

Lemma coo_toarray_cell n cells i j :
  (i < n)%nat -> (j < n)%nat ->
  cell (coo_toarray n cells) i j = count_cell cells (Z.of_nat i) (Z.of_nat j).
Proof.
  intros Hi Hj. unfold cell, coo_toarray.
  rewrite (nth_indep _ [] (map (fun j => count_cell cells (Z.of_nat 0) (Z.of_nat j))
                             (seq 0 n)))
    by now rewrite length_map, length_seq.
  rewrite (map_nth (fun i => map (fun j => count_cell cells (Z.of_nat i) (Z.of_nat j))
                              (seq 0 n)) (seq 0 n) 0%nat i).
  rewrite seq_nth by assumption. simpl.
  rewrite (nth_indep _ 0 (count_cell cells (Z.of_nat i) (Z.of_nat 0)))
    by now rewrite length_map, length_seq.
  rewrite (map_nth (fun j => count_cell cells (Z.of_nat i) (Z.of_nat j))
             (seq 0 n) 0%nat j).
  now rewrite seq_nth.
Qed.

Lemma count_cell_absent_row (cells : list (Z * Z)) i j :
  ~ In i (map fst cells) -> count_cell cells i j = 0.
Proof.
  intros Hi. unfold count_cell.
  induction cells as [|[r c] cells IH]; simpl in *; [reflexivity|].
  destruct (Z.eqb_spec r i); [tauto|]. simpl. apply IH. tauto.
Qed.

Lemma count_cell_absent_column (cells : list (Z * Z)) i j :
  ~ In j (map snd cells) -> count_cell cells i j = 0.
Proof.
  intros Hj. unfold count_cell.
  induction cells as [|[r c] cells IH]; simpl in *; [reflexivity|].
  destruct (Z.eqb_spec c j); [tauto|]. rewrite andb_false_r. apply IH. tauto.
Qed.

Lemma nth_error_combine {A B : Type} (l : list A) (l' : list B) : forall i x y,
  nth_error l i = Some x -> nth_error l' i = Some y -> In (x, y) (combine l l').
Proof.
  revert l'. induction l as [|a l IH]; intros [|b l'] [|i] x y; simpl;
    try discriminate.
  - intros [= ->] [= ->]. now left.
  - intros Hx Hy. right. eauto.
Qed.

Lemma nth_error_indices n i :
  (i < n)%nat -> nth_error (indices n) i = Some (Z.of_nat i).
Proof.
  intros Hi. unfold indices. rewrite nth_error_map, nth_error_seq.
  apply Nat.ltb_lt in Hi. now rewrite Hi.
Qed.

(** The matrix_index idx_2_label_map of a label in a duplicate-free [labels] list is its
    index in the matrix. *)
Lemma to_index_position (names : list string) i name :
  List.NoDup names -> nth_error names i = Some name ->
  to_index names name = Z.of_nat i.
Proof.
  intros Hnd Hi. unfold to_index, enumerate.
  rewrite map_swap_combine.
  rewrite comprehension_distinct
    by (rewrite map_fst_combine; [assumption|now rewrite indices_length]).
  assert (Hlt : (i < length names)%nat).
  { apply nth_error_Some. congruence. }
  rewrite (In_get_Some _ name (Z.of_nat i)); [reflexivity| |].
  - unfold keys. rewrite map_fst_combine; [assumption|now rewrite indices_length].
  - eapply nth_error_combine; [exact Hi|now apply nth_error_indices].
Qed.

Lemma all_str_Some (l : list string) : all_str (map Some l) = Some l.
Proof. induction l as [|x l IH]; simpl; [reflexivity|now rewrite IH]. Qed.

Lemma type_of_target_Some (l : list string) :
  type_of_target (map Some l) = Return (Some l).
Proof.
  unfold type_of_target. rewrite all_str_Some. now destruct l.
Qed.

Lemma check_targets_Some (t p : list string) :
  length t = length p ->
  check_targets (map Some t) (map Some p) = Return (t, p).
Proof.
  intros Hlen. unfold check_targets.
  rewrite !length_map, Hlen, Nat.eqb_refl. simpl.
  now rewrite !type_of_target_Some.
Qed.

Section Bijection.
Variable label_map : dict string Z.
Hypothesis keys_distinct : List.NoDup (keys label_map).
Hypothesis values_distinct : List.NoDup (values label_map).

Let names := keys label_map.
Let idx_2_label_map := invert_label_map label_map.

Lemma invert_label_map_bijection :
  invert_label_map label_map = map (fun '(k, v) => (v, k)) label_map.
Proof using values_distinct.
  unfold invert_label_map, items. apply comprehension_distinct.
  rewrite map_map.
  erewrite map_ext; [exact values_distinct|]. now intros [k v].
Qed.

Lemma inverted_values : values idx_2_label_map = names.
Proof using values_distinct.
  unfold idx_2_label_map. rewrite invert_label_map_bijection.
  unfold values, names, keys. rewrite map_map.
  apply map_ext. now intros [k v].
Qed.

Lemma inverted_keys : keys idx_2_label_map = values label_map.
Proof using values_distinct.
  unfold idx_2_label_map. rewrite invert_label_map_bijection.
  unfold values, keys. rewrite map_map.
  apply map_ext. now intros [k v].
Qed.

Lemma decode_entry i name idx :
  nth_error label_map i = Some (name, idx) ->
  get idx_2_label_map idx = Some name.
Proof using values_distinct.
  intros Hi. apply In_get_Some.
  - now rewrite inverted_keys.
  - unfold idx_2_label_map. rewrite invert_label_map_bijection.
    apply in_map_iff. exists (name, idx). split; [reflexivity|].
    eapply nth_error_In, Hi.
Qed.

Lemma position_entry i name idx :
  nth_error label_map i = Some (name, idx) -> matrix_index idx_2_label_map idx = Z.of_nat i.
Proof using keys_distinct values_distinct.
  intros Hi. unfold matrix_index. rewrite inverted_values. rewrite (decode_entry i name idx Hi). simpl.
  apply to_index_position; [exact keys_distinct|].
  unfold names, keys. rewrite nth_error_map, Hi. reflexivity.
Qed.

Lemma known_index idx :
  In idx (values label_map) ->
  exists i name, nth_error label_map i = Some (name, idx).
Proof.
  unfold values. rewrite in_map_iff. intros ([name idx'] & Hidx & Hin).
  simpl in Hidx. subst idx'.
  apply In_nth_error in Hin as [i Hi]. eauto.
Qed.

Lemma position_eqb i name idx t :
  nth_error label_map i = Some (name, idx) ->
  In t (values label_map) ->
  (matrix_index idx_2_label_map t =? Z.of_nat i) = (t =? idx).
Proof using keys_distinct values_distinct.
  intros Hi Ht. destruct (known_index t Ht) as (k & name' & Hk).
  rewrite (position_entry k name' t Hk).
  destruct (Z.eqb_spec t idx) as [->|Hne].
  - assert (k = i) as ->; [|apply Z.eqb_refl].
    apply (proj1 (NoDup_nth_error (values label_map)) values_distinct).
    + unfold values. rewrite length_map. apply nth_error_Some. congruence.
    + unfold values. rewrite !nth_error_map, Hk, Hi. reflexivity.
  - apply Z.eqb_neq. intros Heq. apply Nat2Z.inj in Heq. subst k.
    congruence.
Qed.

Lemma position_in_range t :
  In t (values label_map) ->
  (matrix_index idx_2_label_map t <? Z.of_nat (length names)) = true.
Proof using keys_distinct values_distinct.
  intros Ht. destruct (known_index t Ht) as (k & name & Hk).
  rewrite (position_entry k name t Hk). apply Z.ltb_lt.
  assert (k < length label_map)%nat by (apply nth_error_Some; congruence).
  unfold names, keys. rewrite length_map. lia.
Qed.

Lemma decode_known (y : list Z) :
  (forall t, In t y -> In t (values label_map)) ->
  map (get idx_2_label_map) y
  = map Some (map (fun t => default "" (get idx_2_label_map t)) y).
Proof using values_distinct.
  induction y as [|t y IH]; intros Hy; simpl; [reflexivity|].
  rewrite IH by (intros; apply Hy; now right).
  destruct (known_index t (Hy t (or_introl eq_refl))) as (k & name & Hk).
  now rewrite (decode_entry k name t Hk).
Qed.

Lemma decoded_in_names t :
  In t (values label_map) ->
  In (default "" (get idx_2_label_map t)) names.
Proof using values_distinct.
  intros Ht. destruct (known_index t Ht) as (k & name & Hk).
  rewrite (decode_entry k name t Hk). simpl.
  unfold names, keys. apply in_map_iff. exists (name, t).
  split; [reflexivity|]. eapply nth_error_In, Hk.
Qed.

Lemma cells_of_examples (examples : list (Z * Z)) :
  combine
    (map (to_index names)
       (map (fun t => default "" (get idx_2_label_map t)) (map fst examples)))
    (map (to_index names)
       (map (fun t => default "" (get idx_2_label_map t)) (map snd examples)))
  = map (fun tp => (matrix_index idx_2_label_map (fst tp),
                    matrix_index idx_2_label_map (snd tp))) examples.
Proof using values_distinct.
  unfold matrix_index. rewrite inverted_values.
  induction examples as [|[t p] examples IH]; simpl; [reflexivity|].
  now rewrite IH.
Qed.

(** Counting in matrix coordinates is counting pairs of class
    indices. *)
Lemma count_cell_examples (examples : list (Z * Z)) i j name_i idx_i name_j idx_j :
  (forall t p, In (t, p) examples ->
               In t (values label_map) /\ In p (values label_map)) ->
  nth_error label_map i = Some (name_i, idx_i) ->
  nth_error label_map j = Some (name_j, idx_j) ->
  count_cell
    (List.filter
       (fun '(t, p) => (p <? Z.of_nat (length names)) && (t <? Z.of_nat (length names)))
       (map (fun tp => (matrix_index idx_2_label_map (fst tp),
                        matrix_index idx_2_label_map (snd tp))) examples))
    (Z.of_nat i) (Z.of_nat j)
  = count_cell examples idx_i idx_j.
Proof using keys_distinct values_distinct.
  intros Hknown Hi Hj. unfold count_cell. f_equal.
  induction examples as [|[t p] examples IH]; simpl; [reflexivity|].
  destruct (Hknown t p (or_introl eq_refl)) as [Ht Hp].
  rewrite (position_in_range t Ht), (position_in_range p Hp). simpl.
  rewrite (position_eqb i name_i idx_i t Hi Ht).
  rewrite (position_eqb j name_j idx_j p Hj Hp).
  specialize (IH (fun t' p' H' => Hknown t' p' (or_intror H'))).
  destruct ((t =? idx_i) && (p =? idx_j)); simpl; now rewrite IH.
Qed.

Lemma confusion_matrix_decoded (examples : list (Z * Z)) :
  label_map <> [] ->
  (forall t p, In (t, p) examples ->
               In t (values label_map) /\ In p (values label_map)) ->
  exists cells,
    confusion_matrix
      (map (fun t => default "" (get idx_2_label_map t)) (map fst examples))
      (map (fun t => default "" (get idx_2_label_map t)) (map snd examples))
      names
    = Return (coo_toarray (length names) cells)
    /\ forall i j name_i idx_i name_j idx_j,
         nth_error label_map i = Some (name_i, idx_i) ->
         nth_error label_map j = Some (name_j, idx_j) ->
         count_cell cells (Z.of_nat i) (Z.of_nat j)
         = count_cell examples idx_i idx_j.
Proof using keys_distinct values_distinct.
  intros Hne Hknown. unfold confusion_matrix.
  rewrite !length_map, Nat.eqb_refl. simpl negb. cbv iota.
  assert (Hlen : (length names =? 0)%nat = false).
  { apply Nat.eqb_neq. unfold names, keys. rewrite length_map.
    destruct label_map; [congruence|discriminate]. }
  rewrite Hlen.
  destruct examples as [|[t p] examples'] eqn:Hex.
  - simpl. exists []. split; [reflexivity|]. reflexivity.
  - rewrite <- Hex in *.
    assert (Hpos : (length examples =? 0)%nat = false) by now rewrite Hex.
    rewrite Hpos.
    assert (Hmem : existsb (fun y => mem y names)
                     (map (fun t => default "" (get idx_2_label_map t))
                        (map fst examples)) = true).
    { rewrite Hex. simpl. apply orb_true_iff. left.
      unfold mem. apply bool_decide_eq_true. apply list_elem_of_In.
      apply decoded_in_names.
      apply (Hknown t p). rewrite Hex. now left. }
    rewrite Hmem. simpl negb. cbv iota.
    eexists. split; [reflexivity|].
    intros i j name_i idx_i name_j idx_j Hi Hj.
    rewrite cells_of_examples.
    now apply (count_cell_examples examples i j name_i idx_i name_j idx_j).
Qed.

End Bijection.

(** X22. Whenever the matrix is built for a bijective label map, it
    is K by K and labelled in the order of the label map, whatever
    labels the test set contains. *)
Lemma confusion_matrix_shape_whenever_built
  (label_map : dict string Z) (y_true y_pred : list Z)
  (cm : classification_metrics) :
  List.NoDup (values label_map) ->
  build_classification_metrics (invert_label_map label_map) y_true y_pred
  = Return cm ->
  labels cm = keys label_map
  /\ length (matrix cm) = len label_map
  /\ Forall (fun row => length row = len label_map) (matrix cm).
Proof.
  intros Hvalues. unfold build_classification_metrics.
  rewrite (inverted_values label_map Hvalues).
  assert (Hlen : length (keys label_map) = len label_map).
  { unfold keys, len. apply length_map. }
  destruct (check_targets _ _) as [[t p]|e]; [|discriminate].
  unfold confusion_matrix.
  repeat match goal with
         | |- context [if ?b then _ else _] => destruct b; try discriminate
         end;
    intros [= <-]; simpl;
    (split; [reflexivity|]);
    (split; [now rewrite coo_toarray_length|]);
    rewrite <- Hlen; apply coo_toarray_row_length.
Qed.

End ConfusionMatrixFacts.

(** ** Effects: general facts *)

Module PyFacts.
Import Exn Py.
Local Open Scope py_scope.

Lemma oblivious_ret {A : Type} (a : A) : oblivious (ret a).
Proof. intros tr. unfold ret. simpl. now rewrite app_nil_r. Qed.

Lemma oblivious_raise {A : Type} (e : exn) : oblivious (@raise A e).
Proof. intros tr. unfold raise. simpl. now rewrite app_nil_r. Qed.

Lemma oblivious_lift {A : Type} (r : result A) : oblivious (lift r).
Proof. intros tr. unfold lift. simpl. now rewrite app_nil_r. Qed.

Lemma oblivious_emit (ev : event) : oblivious (emit ev).
Proof. intros tr. reflexivity. Qed.

Lemma oblivious_bind {A B : Type} (m : M A) (k : A -> M B) :
  oblivious m -> (forall a, oblivious (k a)) -> oblivious (bind m k).
Proof.
  intros Hm Hk tr. unfold bind.
  rewrite (Hm tr). destruct (m []) as [[a|e] n] eqn:Hnil; simpl.
  - rewrite (Hk a (tr ++ n)), (Hk a n). simpl. now rewrite app_assoc.
  - reflexivity.
Qed.

Lemma emits_ret {A : Type} P (a : A) : emits P (ret a).
Proof. intros tr. exists []. simpl. now rewrite app_nil_r. Qed.

Lemma emits_raise {A : Type} P (e : exn) : emits P (@raise A e).
Proof. intros tr. exists []. simpl. now rewrite app_nil_r. Qed.

Lemma emits_lift {A : Type} P (r : result A) : emits P (lift r).
Proof. intros tr. exists []. simpl. now rewrite app_nil_r. Qed.

Lemma emits_emit P (ev : event) : P ev -> emits P (emit ev).
Proof. intros Hev tr. exists [ev]. split; [reflexivity|]. now constructor. Qed.

Lemma emits_bind {A B : Type} P (m : M A) (k : A -> M B) :
  emits P m -> (forall a, emits P (k a)) -> emits P (bind m k).
Proof.
  intros Hm Hk tr. unfold bind.
  destruct (Hm tr) as (n & Hn & HP). destruct (m tr) as [[a|e] tr'] eqn:Hrun;
    simpl in Hn; subst tr'.
  - destruct (Hk a (tr ++ n)) as (n' & Hn' & HP').
    exists (n ++ n'). rewrite Hn', app_assoc. split; [reflexivity|].
    apply Forall_app. now split.
  - exists n. now split.
Qed.

Lemma emits_try_except {A : Type} P
  (m : M A) (catches : cls -> bool) (handler : exn -> M A) :
  emits P m -> (forall e, emits P (handler e)) ->
  emits P (try_except m catches handler).
Proof.
  intros Hm Hh tr. unfold try_except.
  destruct (Hm tr) as (n & Hn & HP). destruct (m tr) as [[a|e] tr'] eqn:Hrun;
    simpl in Hn; subst tr'.
  - exists n. now split.
  - destruct (catches (class e)).
    + destruct (Hh e (tr ++ n)) as (n' & Hn' & HP').
      exists (n ++ n'). rewrite Hn', app_assoc. split; [reflexivity|].
      apply Forall_app. now split.
    + exists n. now split.
Qed.

Lemma core_app (tr tr' : trace) : core (tr ++ tr') = core tr ++ core tr'.
Proof. unfold core. apply List.filter_app. Qed.

Lemma posts_app (tr tr' : trace) : posts (tr ++ tr') = posts tr ++ posts tr'.
Proof. unfold posts. apply List.filter_app. Qed.

Lemma uri_after_core (tr : trace) : forall uri0 a,
  uri_after tr uri0 a = uri_after (core tr) uri0 a.
Proof.
  induction tr as [|ev tr IH]; intros uri0 a; [reflexivity|].
  destruct ev; simpl; apply IH.
Qed.

Lemma files_after_core (tr : trace) : forall fs0 p,
  files_after tr fs0 p = files_after (core tr) fs0 p.
Proof.
  induction tr as [|ev tr IH]; intros fs0 p; [reflexivity|].
  destruct ev; simpl; apply IH.
Qed.

End PyFacts.

(** ** The model-testing component: how a run unfolds *)

Module RunFacts.
Import Exn Py PyFacts ModelTest.
Local Open Scope py_scope.

Lemma oblivious_external w c ev : oblivious (external w c ev).
Proof.
  unfold external. destruct (failure w c);
    [apply oblivious_raise | apply oblivious_emit].
Qed.

Lemma emits_external P w c ev : P ev -> emits P (external w c ev).
Proof.
  intros Hev. unfold external. destruct (failure w c);
    [apply emits_raise | now apply emits_emit].
Qed.

Ltac straight_line obl_bind obl_ret leaf :=
  repeat (cbv zeta; apply obl_bind; [solve [leaf] | intros ?]);
  cbv zeta; apply obl_ret.

(** Lines 142-207 never look at what happened before them. *)
Lemma evaluate_oblivious w a idx : oblivious (evaluate w a idx).
Proof.
  unfold evaluate.
  straight_line (@oblivious_bind) (@oblivious_ret)
    ltac:(first [apply oblivious_lift | apply oblivious_emit
                | apply oblivious_external]).
Qed.

(** They record no notification, no handler entry, set the URI of
    [reusable_model] only, and write the metrics file only. *)
Lemma evaluate_emits w a idx : emits (evaluate_event w a) (evaluate w a idx).
Proof.
  unfold evaluate.
  straight_line (@emits_bind) (@emits_ret)
    ltac:(first [apply emits_lift
                | apply emits_emit; simpl; auto
                | apply emits_external; simpl; auto]).
Qed.

Lemma notifications_core n : Forall is_notification_event n -> core n = [].
Proof.
  induction 1 as [|ev n Hev _ IH]; [reflexivity|].
  unfold core in *. simpl. unfold is_notification_event in Hev.
  now rewrite Hev.
Qed.

Lemma notifications_caught n : Forall is_notification_event n -> caught n = [].
Proof.
  induction 1 as [|ev n Hev _ IH]; [reflexivity|].
  unfold caught in *. simpl. destruct ev; try discriminate Hev; exact IH.
Qed.

(** With a transport that fails by [RequestException], the helper posts
    once, prints the failure if there is one, and returns. *)
Lemma send_slack_message_returns w url message_str date time duration ok tr :
  transport_raises_RequestException (transport w) ->
  exists prints,
    send_slack_message w url message_str date time duration ok tr
    = (Return tt,
       tr ++ Post url (message_of message_str date time duration ok) :: prints)
    /\ (prints = [] \/ exists e, prints = [Print e]).
Proof.
  intros Htransport.
  unfold send_slack_message, try_except, bind, requests_post, raise_for_status.
  destruct (transport w (length (posts tr))) as [status|e] eqn:Hpost.
  - destruct ((400 <=? status) && (status <? 600)); simpl.
    + exists [Print (mk HTTPError "HTTP error")].
      unfold emit. rewrite <- app_assoc. split; [reflexivity|]. right. eauto.
    + exists []. split; [reflexivity|]. now left.
  - rewrite (Htransport _ _ Hpost). exists [Print e].
    unfold emit. rewrite <- app_assoc. split; [reflexivity|]. right. eauto.
Qed.

Lemma if_slack_url_returns w a what duration ok tr :
  transport_raises_RequestException (transport w) ->
  exists n,
    if_slack_url w a (headline a what) duration ok tr = (Return tt, tr ++ n)
    /\ Forall is_notification_event n
    /\ posts n = notification w a what duration ok.
Proof.
  intros Htransport. unfold if_slack_url, notification, endpoint.
  destruct (slack_url a) as [url|].
  - destruct (PyStr.truthy url).
    + destruct (send_slack_message_returns w url (headline a what)
                  (start_date w) (start_time w) duration ok tr Htransport)
        as (prints & Hrun & Hprints).
      eexists. split; [exact Hrun|].
      destruct Hprints as [->|[e ->]]; split;
        repeat constructor.
    + exists []. unfold ret. rewrite app_nil_r. repeat split. constructor.
  - exists []. unfold ret. rewrite app_nil_r. repeat split. constructor.
Qed.

(** A successful evaluation: every stage returned, and the events are
    exactly those of lines 179-207. *)
Lemma evaluate_return w a idx out mid :
  evaluate w a idx [] = (Return out, mid) ->
  exists examples cm ppl rpl fpl,
    examples_of w a = Return examples
    /\ build_classification_metrics idx (map fst examples) (map snd examples)
       = Return cm
    /\ Sklearn.score_weighted Sklearn.Precision (map fst examples) (map snd examples)
       = Return (precision out)
    /\ Sklearn.score_weighted Sklearn.Recall (map fst examples) (map snd examples)
       = Return (recall out)
    /\ Sklearn.score_weighted Sklearn.F1 (map fst examples) (map snd examples)
       = Return (f1_score out)
    /\ Sklearn.score_per_label Sklearn.Precision (map fst examples) (map snd examples)
       = Return ppl
    /\ Sklearn.score_per_label Sklearn.Recall (map fst examples) (map snd examples)
       = Return rpl
    /\ Sklearn.score_per_label Sklearn.F1 (map fst examples) (map snd examples)
       = Return fpl
    /\ mid = success_events w a cm out (metrics_record a out ppl rpl fpl).
Proof.
  unfold evaluate, examples_of, bind, lift, external, emit, ret, raise.
  cbv beta iota zeta. intros H.
  repeat match type of H with
         | context [failure w ?c] =>
             destruct (failure w c) eqn:?; try discriminate H;
             cbv beta iota zeta in H
         | context [match ?x with _ => _ end] =>
             destruct x eqn:?; try discriminate H; cbv beta iota zeta in H
         end.
  injection H as <- <-.
  do 5 eexists. repeat (split; [eassumption || reflexivity|]). reflexivity.
Qed.

Lemma try_body_run w a idx tr :
  transport_raises_RequestException (transport w) ->
  exists n1 n2,
    Forall is_notification_event n1
    /\ posts n1 = notification w a " started" "0" true
    /\ Forall is_notification_event n2
    /\ posts n2 = notification w a " Successfully Tested" (elapsed w) true
    /\ try_body w a idx tr
       = match fst (evaluate w a idx []) with
         | Return out =>
             (Return out, tr ++ n1 ++ snd (evaluate w a idx []) ++ n2)
         | Raise e => (Raise e, tr ++ n1 ++ snd (evaluate w a idx []))
         end.
Proof.
  intros Htransport.
  destruct (if_slack_url_returns w a " started" "0" true tr Htransport)
    as (n1 & Hrun1 & Hn1 & Hposts1).
  set (mid := snd (evaluate w a idx [])).
  destruct (if_slack_url_returns w a " Successfully Tested" (elapsed w) true
              ((tr ++ n1) ++ mid) Htransport)
    as (n2 & Hrun2 & Hn2 & Hposts2).
  exists n1, n2. repeat (split; [assumption|]).
  unfold try_body, bind. rewrite Hrun1.
  rewrite (evaluate_oblivious w a idx (tr ++ n1)). fold mid.
  destruct (fst (evaluate w a idx [])) as [out|e].
  - rewrite Hrun2. unfold ret. now rewrite <- !app_assoc.
  - now rewrite <- app_assoc.
Qed.

Lemma except_block_run w a e tr :
  transport_raises_RequestException (transport w) ->
  exists n,
    Forall is_notification_event n
    /\ posts n = notification w a " Failed to Test" (elapsed w) true
    /\ except_block w a e tr = (Raise e, tr ++ Caught e :: n).
Proof.
  intros Htransport.
  destruct (if_slack_url_returns w a " Failed to Test" (elapsed w) true
              (tr ++ [Caught e]) Htransport)
    as (n & Hrun & Hn & Hposts).
  exists n. repeat (split; [assumption|]).
  unfold except_block, bind, emit. rewrite Hrun. unfold raise.
  now rewrite <- app_assoc.
Qed.

(** The [try] statement of lines 133-227, run from [tr]. *)
Lemma try_statement_run w a idx tr :
  transport_raises_RequestException (transport w) ->
  exists n1 n2,
    Forall is_notification_event n1
    /\ posts n1 = notification w a " started" "0" true
    /\ Forall is_notification_event n2
    /\ match fst (evaluate w a idx []) with
       | Return out =>
           posts n2 = notification w a " Successfully Tested" (elapsed w) true
           /\ try_except (try_body w a idx) is_Exception (except_block w a) tr
              = (Return out, tr ++ n1 ++ snd (evaluate w a idx []) ++ n2)
       | Raise e =>
           if is_Exception (class e) then
             posts n2 = notification w a " Failed to Test" (elapsed w) true
             /\ try_except (try_body w a idx) is_Exception (except_block w a) tr
                = (Raise e,
                   tr ++ n1 ++ snd (evaluate w a idx []) ++ Caught e :: n2)
           else
             n2 = []
             /\ try_except (try_body w a idx) is_Exception (except_block w a) tr
                = (Raise e, tr ++ n1 ++ snd (evaluate w a idx []))
       end.
Proof.
  intros Htransport.
  destruct (try_body_run w a idx tr Htransport)
    as (n1 & n2 & Hn1 & Hposts1 & Hn2 & Hposts2 & Hbody).
  unfold try_except. rewrite Hbody.
  destruct (fst (evaluate w a idx [])) as [out|e].
  - exists n1, n2. repeat (split; [assumption|]). now split.
  - destruct (is_Exception (class e)) eqn:Hclass.
    + destruct (except_block_run w a e (tr ++ n1 ++ snd (evaluate w a idx []))
                  Htransport) as (n & Hn & Hposts & Hrun).
      exists n1, n. repeat (split; [assumption|]).
      rewrite Hrun. f_equal. now rewrite <- !app_assoc.
    + exists n1, []. repeat (split; [assumption || constructor|]).
      now split.
Qed.

End RunFacts.

(** ** The model-testing component: notifications and failures *)

Module ModelTestFacts.
Import Exn Py PyFacts ModelTest RunFacts.
Local Open Scope py_scope.

Lemma evaluate_events_core w a n : Forall (evaluate_event w a) n -> core n = n.
Proof.
  induction 1 as [|ev n Hev _ IH]; [reflexivity|].
  unfold core in *. destruct ev; simpl in *; try contradiction; now rewrite IH.
Qed.

Lemma evaluate_events_quiet w a n :
  Forall (evaluate_event w a) n -> posts n = [] /\ caught n = [].
Proof.
  induction 1 as [|ev n Hev _ [IHp IHc]]; [now split|].
  unfold posts, caught in *.
  destruct ev; simpl in *; try contradiction; now split.
Qed.

Lemma evaluate_events w a idx :
  Forall (evaluate_event w a) (snd (evaluate w a idx [])).
Proof. destruct (evaluate_emits w a idx []) as (n & -> & Hn). exact Hn. Qed.

(** The two tracker calls before the [try] statement. *)
Lemma component_run w a tr :
  test_huggingface_model_component w a tr
  = let init :=
      Init (project_id a) (location a)
        (build_experiment_name
           ("exp-" +:+ label_name a +:+ "-" +:+ huggingface_model_name a)) in
    let start_run := StartRun ("run-" +:+ epoch w) in
    match failure w call_init with
    | Some e => (Raise e, tr)
    | None =>
        match failure w call_start_run with
        | Some e => (Raise e, tr ++ [init])
        | None =>
            try_except (try_body w a (invert_label_map (label_map a)))
              is_Exception (except_block w a) ((tr ++ [init]) ++ [start_run])
        end
    end.
Proof.
  unfold test_huggingface_model_component, bind, external. cbv zeta.
  destruct (failure w call_init) as [e|]; [reflexivity|].
  unfold emit at 1. cbv beta iota.
  destruct (failure w call_start_run) as [e|]; reflexivity.
Qed.

(** The outcome of a run does not depend on the transport's answers. *)
Lemma outcome_determined w a tr :
  transport_raises_RequestException (transport w) ->
  outcome (test_huggingface_model_component w a tr)
  = outcome_sans_transport w a tr.
Proof.
  intros Htransport.
  rewrite component_run. unfold outcome_sans_transport, outcome. cbv zeta.
  destruct (failure w call_init) as [e|]; [reflexivity|].
  destruct (failure w call_start_run) as [e|].
  { simpl. now rewrite core_app. }
  set (idx := invert_label_map (label_map a)).
  match goal with
  | |- context [try_except _ _ _ ?t] =>
      destruct (try_statement_run w a idx t Htransport)
        as (n1 & n2 & Hn1 & _ & Hn2 & Hrun)
  end.
  pose proof (evaluate_events w a idx) as Hmid.
  apply evaluate_events_core in Hmid.
  destruct (evaluate w a idx []) as [[out|e] mid]; simpl in Hrun, Hmid.
  - destruct Hrun as [_ ->]. simpl.
    rewrite !core_app, (notifications_core n1 Hn1), (notifications_core n2 Hn2), Hmid.
    simpl. now rewrite app_nil_r, <- !app_assoc.
  - destruct (is_Exception (class e)).
    + destruct Hrun as [_ ->]. simpl.
      rewrite !core_app, (notifications_core n1 Hn1), Hmid.
      change (core (Caught e :: n2)) with (Caught e :: core n2).
      rewrite (notifications_core n2 Hn2). simpl. now rewrite <- !app_assoc.
    + destruct Hrun as [_ ->]. simpl.
      rewrite !core_app, (notifications_core n1 Hn1), Hmid.
      simpl. now rewrite app_nil_r, <- !app_assoc.
Qed.

(** The claim C4, read for every way a post can fail, does not hold.
    The helper catches [requests.exceptions.RequestException] only
    (lines 96-100): when the post of the "started" notice fails with
    another exception, the helper lets it through, and the run that
    returns the metrics over a working transport raises instead. *)
Lemma transport_failure_escapes_helper_counterexample :
  is_RequestException (class MoreExamples.not_a_request_exception) = false
  /\ fst (send_slack_message
            (with_transport Examples.good_world MoreExamples.transport_broken)
            Examples.webhook "started" "2024-11-20" "10:15:00" "0" true [])
     = Raise MoreExamples.not_a_request_exception
  /\ returns (fst (test_huggingface_model_component
                     (with_transport Examples.good_world Examples.transport_up)
                     (Examples.args3 (Some Examples.webhook)) [])) = true
  /\ fst (test_huggingface_model_component
            (with_transport Examples.good_world MoreExamples.transport_broken)
            (Examples.args3 (Some Examples.webhook)) [])
     = Raise MoreExamples.not_a_request_exception
  /\ fst (test_huggingface_model_component
            (with_transport Examples.good_world Examples.transport_up)
            (Examples.args3 (Some Examples.webhook)) [])
     <> fst (test_huggingface_model_component
               (with_transport Examples.good_world MoreExamples.transport_broken)
               (Examples.args3 (Some Examples.webhook)) [])
  /\ files_after
       (snd (test_huggingface_model_component
               (with_transport Examples.good_world Examples.transport_up)
               (Examples.args3 (Some Examples.webhook)) []))
       (fun _ => None) "/gcs/run/metrics_artifact"
     <> files_after
          (snd (test_huggingface_model_component
                  (with_transport Examples.good_world
                     MoreExamples.transport_broken)
                  (Examples.args3 (Some Examples.webhook)) []))
          (fun _ => None) "/gcs/run/metrics_artifact".
Proof. vm_compute. repeat split; discriminate. Qed.

(** C4 (amended). Two runs that differ only in the notification
    transport, each transport failing, when it fails, by a
    [RequestException] (which an HTTP error status becomes), have the
    same outcome: the same returned triple or the same re-raised
    exception, the same recorded effects apart from the notifications,
    hence the same files and artifact URIs; and such a failure is
    caught inside the notification helper, which returns normally. *)
Theorem notification_transport_does_not_interfere
  (w : world) (t1 t2 : nat -> post_result) (a : args) (tr : trace) :
  transport_raises_RequestException t1 ->
  transport_raises_RequestException t2 ->
  let run1 := test_huggingface_model_component (with_transport w t1) a tr in
  let run2 := test_huggingface_model_component (with_transport w t2) a tr in
  fst run1 = fst run2
  /\ core (snd run1) = core (snd run2)
  /\ (forall fs0 p, files_after (snd run1) fs0 p = files_after (snd run2) fs0 p)
  /\ (forall u0 b, uri_after (snd run1) u0 b = uri_after (snd run2) u0 b)
  /\ (forall url message_str date time duration ok tr',
        fst (send_slack_message (with_transport w t1) url message_str date time
               duration ok tr') = Return tt).
Proof.
  intros H1 H2 run1 run2.
  assert (Hsame : outcome run1 = outcome run2).
  { unfold run1, run2.
    rewrite (outcome_determined (with_transport w t1) a tr H1).
    rewrite (outcome_determined (with_transport w t2) a tr H2).
    reflexivity. }
  unfold outcome in Hsame. injection Hsame as Hresult Hcore.
  split; [exact Hresult|]. split; [exact Hcore|].
  split.
  { intros fs0 p. now rewrite (files_after_core (snd run1)), Hcore,
      <- files_after_core. }
  split.
  { intros u0 b. now rewrite (uri_after_core (snd run1)), Hcore,
      <- uri_after_core. }
  intros url message_str date time duration ok tr'.
  destruct (send_slack_message_returns (with_transport w t1) url message_str
              date time duration ok tr' H1) as (prints & -> & _).
  reflexivity.
Qed.

Lemma transport_up_fails_by_RequestException :
  transport_raises_RequestException Examples.transport_up.
Proof. intros n e. discriminate. Defined.

Lemma transport_down_fails_by_RequestException :
  transport_raises_RequestException Examples.transport_down.
Proof. intros n e [= <-]. reflexivity. Defined.

Lemma notification_transport_does_not_interfere_witness :
  fst (test_huggingface_model_component
         (with_transport Examples.good_world Examples.transport_up)
         (Examples.args3 (Some Examples.webhook)) [])
  = fst (test_huggingface_model_component
           (with_transport Examples.good_world Examples.transport_down)
           (Examples.args3 (Some Examples.webhook)) []).
Proof.
  apply (notification_transport_does_not_interfere Examples.good_world
           Examples.transport_up Examples.transport_down
           (Examples.args3 (Some Examples.webhook)) []
           transport_up_fails_by_RequestException
           transport_down_fails_by_RequestException).
Defined.

(** The claim C5, read for every exception and every transport, does
    not hold. An exception that is not an [Exception] (here the
    [KeyboardInterrupt] of an interrupted prediction) passes the
    [except Exception] block: it is not caught and no failure notice is
    attempted. And when the post of the failure notice itself fails
    outside [RequestException], that failure leaves the [except] block
    before [raise e]: the caller receives it in place of the exception
    the body raised. *)
Lemma exception_not_always_handled_counterexample :
  fst (evaluate MoreExamples.interrupted_world
         (Examples.args3 (Some Examples.webhook))
         (invert_label_map (label_map (Examples.args3 (Some Examples.webhook))))
         [])
  = Raise MoreExamples.interrupt
  /\ fst (test_huggingface_model_component MoreExamples.interrupted_world
            (Examples.args3 (Some Examples.webhook)) [])
     = Raise MoreExamples.interrupt
  /\ caught (snd (test_huggingface_model_component
                    MoreExamples.interrupted_world
                    (Examples.args3 (Some Examples.webhook)) []))
     = []
  /\ posts (snd (test_huggingface_model_component
                   MoreExamples.interrupted_world
                   (Examples.args3 (Some Examples.webhook)) []))
     = notification MoreExamples.interrupted_world
         (Examples.args3 (Some Examples.webhook)) " started" "0" true
  /\ fst (evaluate MoreExamples.notice_fails_world
            (Examples.args3 (Some Examples.webhook))
            (invert_label_map
               (label_map (Examples.args3 (Some Examples.webhook))))
            [])
     = Raise Examples.weights_missing
  /\ caught (snd (test_huggingface_model_component
                    MoreExamples.notice_fails_world
                    (Examples.args3 (Some Examples.webhook)) []))
     = [Caught Examples.weights_missing]
  /\ fst (test_huggingface_model_component MoreExamples.notice_fails_world
            (Examples.args3 (Some Examples.webhook)) [])
     = Raise MoreExamples.ca_bundle
  /\ fst (test_huggingface_model_component MoreExamples.notice_fails_world
            (Examples.args3 (Some Examples.webhook)) [])
     <> Raise Examples.weights_missing.
Proof. vm_compute. repeat split; discriminate. Qed.

(** C5 (amended). Every exception that is an instance of [Exception]
    and is raised by the load/predict/metric-computation body, in a run
    whose tracker calls before the [try] block succeeded and whose
    notification transport fails, when it fails, by a
    [RequestException], is caught exactly once, at the component's
    [except] block; the failure notification is then attempted when an
    endpoint is configured (and only then); and the same exception is
    re-raised: the component does not return a result in its place. *)
Theorem exception_notified_then_reraised
  (w : world) (a : args) (tr : trace) (e : exn) (mid : trace) :
  transport_raises_RequestException (transport w) ->
  failure w call_init = None ->
  failure w call_start_run = None ->
  evaluate w a (invert_label_map (label_map a)) [] = (Raise e, mid) ->
  is_Exception (class e) = true ->
  exists before after,
    test_huggingface_model_component w a tr
    = (Raise e, tr ++ before ++ Caught e :: after)
    /\ caught before = []
    /\ caught after = []
    /\ Forall is_notification_event after
    /\ posts after = notification w a " Failed to Test" (elapsed w) true.
Proof.
  intros Htransport Hinit Hstart Hev Hclass.
  rewrite component_run, Hinit, Hstart. cbv zeta.
  set (init := Init _ _ _). set (start_run := StartRun _).
  set (idx := invert_label_map (label_map a)) in *.
  destruct (try_statement_run w a idx ((tr ++ [init]) ++ [start_run]) Htransport)
    as (n1 & n2 & Hn1 & _ & Hn2 & Hrun).
  pose proof (evaluate_events w a idx) as Hmid.
  rewrite Hev in Hrun, Hmid. simpl in Hrun, Hmid. rewrite Hclass in Hrun.
  destruct Hrun as [Hposts ->].
  exists ([init; start_run] ++ n1 ++ mid), n2.
  split; [f_equal; now rewrite <- !app_assoc|].
  split.
  { unfold caught. rewrite !List.filter_app. simpl.
    fold (caught n1) (caught mid).
    rewrite (notifications_caught n1 Hn1).
    now rewrite (proj2 (evaluate_events_quiet w a mid Hmid)). }
  split; [now apply notifications_caught|].
  now split.
Qed.

Lemma exception_notified_then_reraised_witness :
  exists tr,
    test_huggingface_model_component Examples.failing_world
      (Examples.args3 (Some Examples.webhook)) []
    = (Raise Examples.weights_missing, tr).
Proof.
  destruct (exception_notified_then_reraised Examples.failing_world
              (Examples.args3 (Some Examples.webhook)) []
              Examples.weights_missing []
              transport_up_fails_by_RequestException
              eq_refl eq_refl eq_refl eq_refl)
    as (before & after & Hrun & _).
  eexists. exact Hrun.
Defined.

(** The counts the claim C6 states do not hold: with an endpoint
    configured, a successful run attempts two notifications (started,
    then tested), and so does a failed one (started, then failed). *)
Lemma one_notification_per_run_counterexample :
  endpoint (Examples.args3 (Some Examples.webhook)) = Some Examples.webhook
  /\ returns (fst (test_huggingface_model_component Examples.good_world
                     (Examples.args3 (Some Examples.webhook)) [])) = true
  /\ length (posts (snd (test_huggingface_model_component Examples.good_world
                           (Examples.args3 (Some Examples.webhook)) [])))
     = 2%nat
  /\ length (posts (snd (test_huggingface_model_component Examples.good_world
                           (Examples.args3 (Some Examples.webhook)) [])))
     <> 1%nat
  /\ returns (fst (test_huggingface_model_component Examples.failing_world
                     (Examples.args3 (Some Examples.webhook)) [])) = false
  /\ length (posts (snd (test_huggingface_model_component Examples.failing_world
                           (Examples.args3 (Some Examples.webhook)) [])))
     = 2%nat
  /\ length (posts (snd (test_huggingface_model_component Examples.failing_world
                           (Examples.args3 (Some Examples.webhook)) [])))
     <> 1%nat.
Proof. vm_compute. repeat split; discriminate. Qed.

(** C6 (amended). With an endpoint configured, a tracker that accepts
    the run and a transport that fails, when it fails, by a
    [RequestException], every execution attempts the "started"
    notification on entering the [try] block and then exactly one
    completion notification: "Successfully Tested" when the run
    returns, "Failed to Test" when it raises an instance of
    [Exception]; so two notifications on the success path and two on
    the failure path. A run that ends with an exception that is not an
    [Exception] has attempted the "started" notification only. *)
Theorem started_then_one_completion_notification
  (w : world) (a : args) (tr : trace) (url : string) :
  transport_raises_RequestException (transport w) ->
  failure w call_init = None ->
  failure w call_start_run = None ->
  endpoint a = Some url ->
  let run := test_huggingface_model_component w a tr in
  let post what duration :=
    Post url (message_of (headline a what) (start_date w) (start_time w)
                duration true) in
  exists new,
    snd run = tr ++ new
    /\ match fst run with
       | Return _ =>
           posts new = [post " started" "0";
                        post " Successfully Tested" (elapsed w)]
       | Raise e =>
           posts new
           = post " started" "0"
             :: (if is_Exception (class e)
                 then [post " Failed to Test" (elapsed w)]
                 else [])
       end.
Proof.
  intros Htransport Hinit Hstart Hendpoint run post. unfold run.
  rewrite component_run, Hinit, Hstart. cbv zeta.
  set (init := Init _ _ _). set (start_run := StartRun _).
  set (idx := invert_label_map (label_map a)).
  destruct (try_statement_run w a idx ((tr ++ [init]) ++ [start_run]) Htransport)
    as (n1 & n2 & Hn1 & Hposts1 & Hn2 & Hrun).
  pose proof (evaluate_events w a idx) as Hmid.
  apply evaluate_events_quiet in Hmid as [Hmid _].
  unfold notification in *. rewrite Hendpoint in *.
  destruct (evaluate w a idx []) as [[out|e] mid]; simpl in Hrun, Hmid.
  - destruct Hrun as [Hposts2 ->]. simpl.
    exists ([init; start_run] ++ n1 ++ mid ++ n2).
    split; [now rewrite <- !app_assoc|].
    rewrite !posts_app, Hposts1, Hposts2, Hmid. reflexivity.
  - destruct (is_Exception (class e)) eqn:Hclass.
    + destruct Hrun as [Hposts2 ->]. simpl. rewrite Hclass.
      exists ([init; start_run] ++ n1 ++ mid ++ Caught e :: n2).
      split; [now rewrite <- !app_assoc|].
      change (Caught e :: n2) with ([Caught e] ++ n2).
      rewrite !posts_app, Hposts1, Hposts2, Hmid. reflexivity.
    + destruct Hrun as [_ ->]. simpl. rewrite Hclass.
      exists ([init; start_run] ++ n1 ++ mid).
      split; [now rewrite <- !app_assoc|].
      rewrite !posts_app, Hposts1, Hmid. reflexivity.
Qed.

Lemma started_then_one_completion_notification_witness :
  exists new,
    snd (test_huggingface_model_component Examples.failing_world
           (Examples.args3 (Some Examples.webhook)) []) = [] ++ new
    /\ length (posts new) = 2%nat.
Proof.
  destruct (started_then_one_completion_notification Examples.failing_world
              (Examples.args3 (Some Examples.webhook)) [] Examples.webhook
              transport_up_fails_by_RequestException eq_refl eq_refl eq_refl)
    as (new & Hnew & Hposts).
  exists new. split; [exact Hnew|].
  simpl in Hposts. now rewrite Hposts.
Defined.

(** Without an endpoint nothing is posted. *)
Lemma no_endpoint_no_notification (w : world) (a : args) (tr : trace) :
  transport_raises_RequestException (transport w) ->
  endpoint a = None ->
  posts (snd (test_huggingface_model_component w a tr)) = posts tr.
Proof.
  intros Htransport Hendpoint.
  rewrite component_run. cbv zeta.
  destruct (failure w call_init); [reflexivity|].
  destruct (failure w call_start_run); [simpl; now rewrite posts_app, app_nil_r|].
  set (idx := invert_label_map (label_map a)).
  match goal with
  | |- context [try_except _ _ _ ?t] =>
      destruct (try_statement_run w a idx t Htransport)
        as (n1 & n2 & Hn1 & Hposts1 & Hn2 & Hrun)
  end.
  pose proof (evaluate_events w a idx) as Hmid.
  apply evaluate_events_quiet in Hmid as [Hmid _].
  unfold notification in *. rewrite Hendpoint in *.
  destruct (evaluate w a idx []) as [[out|e] mid]; simpl in Hrun, Hmid.
  - destruct Hrun as [Hposts2 ->]. simpl.
    rewrite !posts_app, Hposts1, Hposts2, Hmid. simpl. now rewrite !app_nil_r.
  - destruct (is_Exception (class e)).
    + destruct Hrun as [Hposts2 ->]. simpl.
      change (Caught e :: n2) with ([Caught e] ++ n2).
      rewrite !posts_app, Hposts1, Hposts2, Hmid. simpl. now rewrite !app_nil_r.
    + destruct Hrun as [_ ->]. simpl.
      rewrite !posts_app, Hposts1, Hmid. simpl. now rewrite !app_nil_r.
Qed.

(** C7. A failed run announces itself as a success: on the input
    [failing_world] (the weights file cannot be opened) the run
    re-raises the error, and the notice it posts for the failure
    carries the success color and the green marker. *)
Theorem failure_notification_marked_as_success :
  fst (test_huggingface_model_component Examples.failing_world
         (Examples.args3 (Some Examples.webhook)) [])
  = Raise Examples.weights_missing
  /\ caught (snd (test_huggingface_model_component Examples.failing_world
                    (Examples.args3 (Some Examples.webhook)) []))
     = [Caught Examples.weights_missing]
  /\ colors (snd (test_huggingface_model_component Examples.failing_world
                    (Examples.args3 (Some Examples.webhook)) []))
     = ["#36a64f"; "#36a64f"]
  /\ pretexts (snd (test_huggingface_model_component Examples.failing_world
                      (Examples.args3 (Some Examples.webhook)) []))
     = [":large_green_circle: KubeFlow Component: Test HuggingFace Model | Model: bert-base-multilingual-cased started";
        ":large_green_circle: KubeFlow Component: Test HuggingFace Model | Model: bert-base-multilingual-cased Failed to Test"].
Proof. vm_compute. repeat split. Qed.

(** Every payload the component posts is built with
    [is_success = True]: the failure color is never used. *)
Lemma every_notification_green (w : world) (a : args) (tr : trace) :
  transport_raises_RequestException (transport w) ->
  exists new,
    snd (test_huggingface_model_component w a tr) = tr ++ new
    /\ Forall (fun c => c = "#36a64f") (colors new).
Proof.
  intros Htransport.
  rewrite component_run. cbv zeta.
  set (init := Init _ _ _). set (start_run := StartRun _).
  destruct (failure w call_init).
  { exists []. simpl. split; [now rewrite app_nil_r|constructor]. }
  destruct (failure w call_start_run).
  { exists [init]. simpl. split; [reflexivity|constructor]. }
  set (idx := invert_label_map (label_map a)).
  destruct (try_statement_run w a idx ((tr ++ [init]) ++ [start_run]) Htransport)
    as (n1 & n2 & Hn1 & Hposts1 & Hn2 & Hrun).
  pose proof (evaluate_events w a idx) as Hmid.
  apply evaluate_events_quiet in Hmid as [Hmid _].
  assert (Hcolors : forall n, colors n = colors (posts n)).
  { induction n as [|ev n IH]; [reflexivity|].
    destruct ev; simpl; try exact IH. now rewrite IH. }
  assert (Hgreen : forall what duration,
             Forall (fun c => c = "#36a64f")
               (colors (notification w a what duration true))).
  { intros what duration. unfold notification.
    destruct (endpoint a); simpl; repeat constructor. }
  assert (Happ : forall n n', colors (n ++ n') = colors n ++ colors n').
  { intros n n'. unfold colors. apply flat_map_app. }
  destruct (evaluate w a idx []) as [[out|e] mid]; simpl in Hrun, Hmid.
  - destruct Hrun as [Hposts2 ->]. simpl.
    exists ([init; start_run] ++ n1 ++ mid ++ n2).
    split; [now rewrite <- !app_assoc|].
    rewrite Hcolors, !posts_app, Hposts1, Hposts2, Hmid. simpl.
    rewrite Happ. apply Forall_app. split; apply Hgreen.
  - destruct (is_Exception (class e)).
    + destruct Hrun as [Hposts2 ->]. simpl.
      exists ([init; start_run] ++ n1 ++ mid ++ Caught e :: n2).
      split; [now rewrite <- !app_assoc|].
      change (Caught e :: n2) with ([Caught e] ++ n2).
      rewrite Hcolors, !posts_app, Hposts1, Hposts2, Hmid. simpl.
      rewrite Happ. apply Forall_app. split; apply Hgreen.
    + destruct Hrun as [_ ->]. simpl.
      exists ([init; start_run] ++ n1 ++ mid).
      split; [now rewrite <- !app_assoc|].
      rewrite Hcolors, !posts_app, Hposts1, Hmid. simpl.
      rewrite app_nil_r. apply Hgreen.
Qed.

(** *** The model handle and the files *)

Lemma emits_weaken {A : Type} (P Q : event -> Prop) (m : M A) :
  (forall ev, P ev -> Q ev) -> emits P m -> emits Q m.
Proof.
  intros HPQ Hm tr. destruct (Hm tr) as (n & Hn & HP).
  exists n. split; [assumption|]. eapply Forall_impl; eassumption.
Qed.

Lemma send_slack_message_emits w url message_str date time duration ok :
  emits is_notification_event
    (send_slack_message w url message_str date time duration ok).
Proof.
  unfold send_slack_message. apply emits_try_except.
  - apply emits_bind.
    + intros tr. unfold requests_post.
      exists [Post url (message_of message_str date time duration ok)].
      destruct (transport w (length (posts tr))); simpl;
        (split; [reflexivity|repeat constructor]).
    + intros status. unfold raise_for_status.
      destruct ((400 <=? status) && (status <? 600));
        [apply emits_raise|apply emits_ret].
  - intros e. now apply emits_emit.
Qed.

Lemma if_slack_url_emits w a message_str duration ok :
  emits is_notification_event (if_slack_url w a message_str duration ok).
Proof.
  unfold if_slack_url. destruct (slack_url a) as [url|]; [|apply emits_ret].
  destruct (PyStr.truthy url); [apply send_slack_message_emits|apply emits_ret].
Qed.

Lemma notification_component_event w a ev :
  is_notification_event ev -> component_event w a ev.
Proof. destruct ev; simpl; try discriminate; trivial. Qed.

Lemma evaluate_component_event w a ev :
  evaluate_event w a ev -> component_event w a ev.
Proof. destruct ev; simpl; trivial; contradiction. Qed.

(** Whatever happens, the component sets no URI but that of
    [reusable_model] and writes no file but the metrics file. *)
Lemma component_emits w a :
  emits (component_event w a) (test_huggingface_model_component w a).
Proof.
  unfold test_huggingface_model_component. cbv zeta.
  apply emits_bind; [apply emits_external; exact I|intros _].
  apply emits_bind; [apply emits_external; exact I|intros _].
  apply emits_try_except.
  - unfold try_body.
    apply emits_bind;
      [eapply emits_weaken; [apply notification_component_event
                            |apply if_slack_url_emits]|intros _].
    apply emits_bind;
      [eapply emits_weaken; [apply evaluate_component_event
                            |apply evaluate_emits]|intros out].
    apply emits_bind;
      [eapply emits_weaken; [apply notification_component_event
                            |apply if_slack_url_emits]|intros _].
    apply emits_ret.
  - intros e. unfold except_block.
    apply emits_bind; [apply emits_emit; exact I|intros _].
    apply emits_bind;
      [eapply emits_weaken; [apply notification_component_event
                            |apply if_slack_url_emits]|intros _].
    apply emits_raise.
Qed.

Lemma except_block_raises w a e tr : returns (fst (except_block w a e tr)) = false.
Proof.
  unfold except_block, bind, emit, raise.
  destruct (if_slack_url w a (headline a " Failed to Test") (elapsed w) true
              (tr ++ [Caught e])) as [[[]|e'] tr']; reflexivity.
Qed.

(** A run that returns went through line 179. *)
Lemma return_sets_uri w a tr :
  returns (fst (test_huggingface_model_component w a tr)) = true ->
  exists before after,
    snd (test_huggingface_model_component w a tr)
    = tr ++ before ++ SetUri reusable_model (uri0 a model) :: after.
Proof.
  rewrite component_run. cbv zeta.
  set (init := Init _ _ _). set (start_run := StartRun _).
  destruct (failure w call_init); [discriminate|].
  destruct (failure w call_start_run); [discriminate|].
  set (idx := invert_label_map (label_map a)).
  unfold try_except.
  destruct (try_body w a idx ((tr ++ [init]) ++ [start_run]))
    as [[out|e] tr'] eqn:Hbody.
  - intros _. simpl. unfold try_body, bind in Hbody.
    destruct (if_slack_url_emits w a (headline a " started") "0" true
                ((tr ++ [init]) ++ [start_run])) as (n1 & Hn1 & _).
    destruct (if_slack_url w a (headline a " started") "0" true
                ((tr ++ [init]) ++ [start_run])) as [[[]|e1] t1];
      [|discriminate Hbody].
    simpl in Hn1. subst t1.
    rewrite (evaluate_oblivious w a idx) in Hbody.
    destruct (evaluate w a idx []) as [[out'|e2] mid] eqn:Hev;
      simpl in Hbody; [|discriminate Hbody].
    destruct (evaluate_return w a idx out' mid Hev)
      as (examples & cm & ppl & rpl & fpl & _ & _ & _ & _ & _ & _ & _ & _ & Hmid).
    match type of Hbody with
    | context [if_slack_url ?w ?a ?m ?d ?ok ?t] =>
        destruct (if_slack_url_emits w a m d ok t) as (n2 & Hn2 & _);
        destruct (if_slack_url w a m d ok t) as [[[]|e3] t2];
          [|discriminate Hbody]
    end.
    simpl in Hn2. subst t2. injection Hbody as _ <-.
    rewrite Hmid. unfold success_events.
    eexists ([init; start_run] ++ n1), _.
    rewrite <- !app_assoc. simpl. reflexivity.
  - destruct (is_Exception (class e)); [|discriminate].
    now rewrite except_block_raises.
Qed.

Lemma uri_after_frame w a (n : list event) : forall u0 b,
  Forall (component_event w a) n ->
  b <> reusable_model ->
  uri_after n u0 b = u0 b.
Proof.
  induction n as [|ev n IH]; intros u0 b Hn Hb; [reflexivity|].
  inversion Hn as [|? ? Hev Hn']; subst.
  destruct ev; simpl; try (now apply IH).
  destruct Hev as [-> ->]. rewrite IH by assumption.
  destruct (decide (b = reusable_model)); [contradiction|reflexivity].
Qed.

Lemma uri_after_set w a (n : list event) : forall u0,
  Forall (component_event w a) n ->
  u0 reusable_model = uri0 a model ->
  uri_after n u0 reusable_model = uri0 a model.
Proof.
  induction n as [|ev n IH]; intros u0 Hn Hu0; [exact Hu0|].
  inversion Hn as [|? ? Hev Hn']; subst.
  destruct ev; simpl; try (now apply IH).
  destruct Hev as [-> ->]. apply IH; [assumption|].
  now destruct (decide (reusable_model = reusable_model)).
Qed.

Lemma uri_after_app (n n' : list event) : forall u0 b,
  uri_after (n ++ n') u0 b = uri_after n' (uri_after n u0) b.
Proof.
  induction n as [|ev n IH]; intros u0 b; [reflexivity|].
  destruct ev; simpl; apply IH.
Qed.

Lemma files_after_frame w a (n : list event) : forall fs0 p,
  Forall (component_event w a) n ->
  p <> local_path w (uri0 a metrics_artifact) ->
  files_after n fs0 p = fs0 p.
Proof.
  induction n as [|ev n IH]; intros fs0 p Hn Hp; [reflexivity|].
  inversion Hn as [|? ? Hev Hn']; subst.
  destruct ev; simpl; try (now apply IH).
  simpl in Hev. subst path. rewrite IH by assumption.
  destruct (decide (p = local_path w (uri0 a metrics_artifact)));
    [contradiction|reflexivity].
Qed.

(** C8. A successful execution leaves [reusable_model] with the URI
    of the input [model]; it changes the URI of no other artifact (the
    input model included) and writes no file but the metrics record,
    so the trained model it was given is as it found it. *)
Theorem reusable_model_is_input_model
  (w : world) (a : args) (tr : trace) :
  returns (fst (test_huggingface_model_component w a tr)) = true ->
  exists new,
    snd (test_huggingface_model_component w a tr) = tr ++ new
    /\ uri_after new (uri0 a) reusable_model = uri0 a model
    /\ (forall b, b <> reusable_model -> uri_after new (uri0 a) b = uri0 a b)
    /\ (forall fs0 p,
          p <> local_path w (uri0 a metrics_artifact) ->
          files_after new fs0 p = fs0 p).
Proof.
  intros Hreturns.
  destruct (return_sets_uri w a tr Hreturns) as (before & after & Hrun).
  destruct (component_emits w a tr) as (new & Hnew & Hevents).
  assert (new = before ++ SetUri reusable_model (uri0 a model) :: after) as Hsplit.
  { rewrite Hrun in Hnew. now apply app_inv_head in Hnew. }
  exists new. split; [exact Hnew|].
  split.
  { rewrite Hsplit in *. apply Forall_app in Hevents as [_ Hafter].
    inversion Hafter as [|? ? _ Hafter']; subst.
    rewrite uri_after_app. simpl.
    apply (uri_after_set w a); [assumption|].
    now destruct (decide (reusable_model = reusable_model)). }
  split.
  - intros b Hb. now apply (uri_after_frame w a).
  - intros fs0 p Hp. now apply (files_after_frame w a).
Qed.

Lemma reusable_model_is_input_model_witness :
  exists new,
    snd (test_huggingface_model_component Examples.good_world
           (Examples.args3 (Some Examples.webhook)) []) = [] ++ new
    /\ uri_after new Examples.uris reusable_model = Examples.uris model.
Proof.
  destruct (reusable_model_is_input_model Examples.good_world
              (Examples.args3 (Some Examples.webhook)) [] eq_refl)
    as (new & Hnew & Huri & _).
  exists new. split; [exact Hnew|exact Huri].
Defined.

(** *** The per-label arrays *)

Lemma score_per_label_length m y_true y_pred scores :
  Sklearn.score_per_label m y_true y_pred = Return scores ->
  length scores = length (Sklearn.unique_labels y_true y_pred).
Proof.
  unfold Sklearn.score_per_label.
  destruct (negb (length y_true =? length y_pred)%nat); [discriminate|].
  intros [= <-]. apply length_map.
Qed.

(** C2. The per-label arrays follow the labels that occur, not the
    label map: with the three-label map and the test set [holdout], in
    which the label 2 is neither a true nor a predicted class, the run
    succeeds and persists per-label precision, recall and F1 arrays of
    length 2, while its confusion matrix is 3 by 3. *)
Theorem per_label_arrays_shorter_than_label_map :
  PyDict.len (label_map (Examples.args3 None)) = 3%nat
  /\ returns (fst (test_huggingface_model_component Examples.good_world
                     (Examples.args3 None) [])) = true
  /\ per_label_lengths
       (files_after
          (snd (test_huggingface_model_component Examples.good_world
                  (Examples.args3 None) []))
          (fun _ => None) "/gcs/run/metrics_artifact")
     = Some (2%nat, 2%nat, 2%nat)
  /\ Sklearn.unique_labels (map fst Examples.holdout) (map snd Examples.holdout)
     = [0; 1]
  /\ (exists cm,
        build_classification_metrics
          (invert_label_map (label_map (Examples.args3 None)))
          (map fst Examples.holdout) (map snd Examples.holdout) = Return cm
        /\ map (@length Z) (matrix cm) = [3%nat; 3%nat; 3%nat]).
Proof.
  split; [reflexivity|]. split; [reflexivity|]. split; [reflexivity|].
  split; [reflexivity|]. eexists. split; reflexivity.
Qed.

End ModelTestFacts.

(** ** Dictionaries built from lists with repeated keys *)

Module DictOverwriteFacts.
Import PyDict PyDictFacts.

Section Overwrite.
Context {K V : Type} `{EqDecision K}.
Implicit Types (d : dict K V) (k : K) (v : V).

Lemma get_set_same d k v : get (set d k v) k = Some v.
Proof.
  induction d as [|[k' v'] d IH]; simpl.
  - now destruct (decide (k = k)).
  - destruct (decide (k' = k)) as [->|Hne]; simpl.
    + now destruct (decide (k = k)).
    + now destruct (decide (k' = k)).
Qed.

Lemma get_set_other d k v k' : k <> k' -> get (set d k v) k' = get d k'.
Proof.
  intros Hne. induction d as [|[k0 v0] d IH]; simpl.
  - now destruct (decide (k = k')).
  - destruct (decide (k0 = k)) as [->|Hne0]; simpl.
    + now destruct (decide (k = k')).
    + now rewrite IH.
Qed.

Lemma keys_set_In d k v k' : In k' (keys (set d k v)) <-> k' = k \/ In k' (keys d).
Proof.
  rewrite <- !get_is_Some.
  destruct (decide (k = k')) as [->|Hne].
  - rewrite get_set_same. split; [now left|now eexists].
  - rewrite get_set_other by assumption.
    split; [now right|intros [Heq|?]; [congruence|assumption]].
Qed.

Lemma keys_set_NoDup d k v : List.NoDup (keys d) -> List.NoDup (keys (set d k v)).
Proof.
  induction d as [|[k' v'] d IH]; simpl; intros Hnd.
  - repeat constructor. simpl. tauto.
  - inversion Hnd as [|? ? Hk' Hnd']; subst.
    destruct (decide (k' = k)) as [->|Hne]; simpl.
    + now constructor.
    + constructor; [|now apply IH].
      change (~ In k' (keys (set d k v))). rewrite keys_set_In. tauto.
Qed.

Lemma length_set d k v : (length (set d k v) <= S (length d))%nat.
Proof.
  induction d as [|[k' v'] d IH]; simpl; [lia|].
  destruct (decide (k' = k)); simpl; lia.
Qed.

Lemma fold_set_NoDup (kvs : list (K * V)) : forall d,
  List.NoDup (keys d) ->
  List.NoDup (keys (fold_left (fun d kv => set d (fst kv) (snd kv)) kvs d)).
Proof.
  induction kvs as [|[k v] kvs IH]; intros d Hd; simpl; [assumption|].
  apply IH. now apply keys_set_NoDup.
Qed.

Lemma fold_set_keys (kvs : list (K * V)) : forall d k,
  In k (keys (fold_left (fun d kv => set d (fst kv) (snd kv)) kvs d))
  <-> In k (keys d) \/ In k (map fst kvs).
Proof.
  induction kvs as [|[k0 v0] kvs IH]; intros d k; simpl; [tauto|].
  rewrite IH, keys_set_In. intuition congruence.
Qed.

Lemma fold_set_length (kvs : list (K * V)) : forall d,
  (length (fold_left (fun d kv => set d (fst kv) (snd kv)) kvs d)
   <= length d + length kvs)%nat.
Proof.
  induction kvs as [|[k v] kvs IH]; intros d; simpl; [lia|].
  specialize (IH (set d k v)). pose proof (length_set d k v). lia.
Qed.

Lemma get_app d d' k :
  get (d ++ d') k = match get d k with Some v => Some v | None => get d' k end.
Proof.
  induction d as [|[k0 v0] d IH]; simpl; [reflexivity|].
  now destruct (decide (k0 = k)).
Qed.

(** Later bindings win: a comprehension looks a key up as the reversed
    list of pairs does. *)
Lemma fold_set_get (kvs : list (K * V)) : forall d k,
  get (fold_left (fun d kv => set d (fst kv) (snd kv)) kvs d) k
  = match get (rev kvs) k with Some v => Some v | None => get d k end.
Proof.
  induction kvs as [|[k0 v0] kvs IH]; intros d k; simpl; [reflexivity|].
  rewrite IH, get_app. destruct (get (rev kvs) k); [reflexivity|]. simpl.
  destruct (decide (k0 = k)) as [->|Hne].
  - apply get_set_same.
  - now apply get_set_other.
Qed.

Lemma comprehension_keys_NoDup (kvs : list (K * V)) :
  List.NoDup (keys (comprehension kvs)).
Proof. apply fold_set_NoDup. constructor. Qed.

Lemma comprehension_keys (kvs : list (K * V)) k :
  In k (keys (comprehension kvs)) <-> In k (map fst kvs).
Proof. unfold comprehension. rewrite fold_set_keys. simpl. tauto. Qed.

Lemma comprehension_get (kvs : list (K * V)) k :
  get (comprehension kvs) k = get (rev kvs) k.
Proof.
  unfold comprehension. rewrite fold_set_get. now destruct (get (rev kvs) k).
Qed.

(** The first match of a lookup: nothing before it has the key. *)
Lemma get_Some_split d k v :
  get d k = Some v ->
  exists d1 d2, d = d1 ++ (k, v) :: d2 /\ ~ In k (keys d1).
Proof.
  induction d as [|[k0 v0] d IH]; simpl; [discriminate|].
  destruct (decide (k0 = k)) as [->|Hne].
  - intros [= ->]. exists [], d. split; [reflexivity|]. simpl. tauto.
  - intros Hget. destruct (IH Hget) as (d1 & d2 & -> & Hfresh).
    exists ((k0, v0) :: d1), d2. split; [reflexivity|]. simpl. tauto.
Qed.

(** Distinct keys with values that determine their key: distinct
    values. *)
Lemma values_NoDup d :
  List.NoDup (keys d) ->
  (forall k k' v, In (k, v) d -> In (k', v) d -> k = k') ->
  List.NoDup (values d).
Proof.
  induction d as [|[k v] d IH]; simpl; intros Hnd Hinj; [constructor|].
  inversion Hnd as [|? ? Hk Hnd']; subst. constructor.
  - intros Hv. apply in_map_iff in Hv as ([k' v'] & Hv' & Hin).
    simpl in Hv'. subst v'.
    assert (k = k') by (apply (Hinj k k' v); [now left|now right]).
    subst k'. apply Hk. unfold keys. apply in_map_iff.
    now exists (k, v).
  - apply IH; [assumption|]. intros k1 k2 v0 H1 H2.
    apply (Hinj k1 k2 v0); now right.
Qed.
End Overwrite.

End DictOverwriteFacts.

(** ** The label maps of an arbitrary configured list *)

Module LabelMapAnyListFacts.
Import PyDict PyDictFacts DictOverwriteFacts.

Lemma In_map_swap {A B : Type} (l : list (A * B)) a b :
  In (b, a) (map (fun '(x, y) => (y, x)) l) <-> In (a, b) l.
Proof.
  rewrite in_map_iff. split.
  - intros ([x y] & [= <- <-] & Hin). exact Hin.
  - intros Hin. now exists (a, b).
Qed.

Lemma map_fst_swap {A B : Type} (l : list (A * B)) :
  map fst (map (fun '(x, y) => (y, x)) l) = map snd l.
Proof. rewrite map_map. apply map_ext. now intros [x y]. Qed.

Lemma nth_error_combine_both {A B : Type} (l : list A) (l' : list B) :
  forall i x y,
    nth_error l i = Some x -> nth_error l' i = Some y ->
    nth_error (combine l l') i = Some (x, y).
Proof.
  revert l'. induction l as [|a l IH]; intros [|b l'] [|i] x y; simpl;
    try discriminate.
  - now intros [= ->] [= ->].
  - apply IH.
Qed.

Lemma nth_error_indices_lt n i :
  (i < n)%nat -> nth_error (indices n) i = Some (Z.of_nat i).
Proof.
  intros Hi. unfold indices. rewrite nth_error_map, nth_error_seq.
  apply Nat.ltb_lt in Hi. now rewrite Hi.
Qed.

Section AnyList.
Variable unique_label_values : list string.

Let pairs := combine unique_label_values (indices (length unique_label_values)).

Lemma label_2_idx_map_pairs :
  Submit.label_2_idx_map unique_label_values = comprehension pairs.
Proof.
  unfold Submit.label_2_idx_map, enumerate. now rewrite map_swap_combine.
Qed.

Lemma nth_error_pairs i label :
  nth_error unique_label_values i = Some label ->
  nth_error pairs i = Some (label, Z.of_nat i).
Proof.
  intros Hi. apply nth_error_combine_both; [assumption|].
  apply nth_error_indices_lt. apply nth_error_Some. congruence.
Qed.

Lemma nth_error_pairs_inv i label idx :
  nth_error pairs i = Some (label, idx) ->
  nth_error unique_label_values i = Some label /\ idx = Z.of_nat i.
Proof.
  intros Hi. apply nth_error_combine_inv in Hi as [Hlabel Hidx].
  split; [assumption|]. now apply nth_error_indices_inv in Hidx.
Qed.

Lemma In_pairs label idx :
  In (label, idx) pairs ->
  nth_error unique_label_values (Z.to_nat idx) = Some label
  /\ 0 <= idx < Z.of_nat (length unique_label_values).
Proof.
  intros Hin. apply In_nth_error in Hin as [i Hi].
  destruct (nth_error_pairs_inv i label idx Hi) as [Hlabel ->].
  rewrite Nat2Z.id. split; [assumption|].
  assert (i < length unique_label_values)%nat
    by (apply nth_error_Some; congruence).
  lia.
Qed.

Lemma map_fst_pairs : map fst pairs = unique_label_values.
Proof. apply map_fst_combine. now rewrite indices_length. Qed.

(** The index a label is mapped to is the position of its last
    occurrence in the configured list. *)
Lemma get_label_2_idx_map label idx :
  get (Submit.label_2_idx_map unique_label_values) label = Some idx ->
  nth_error unique_label_values (Z.to_nat idx) = Some label
  /\ 0 <= idx < Z.of_nat (length unique_label_values)
  /\ forall j, nth_error unique_label_values j = Some label -> Z.of_nat j <= idx.
Proof.
  rewrite label_2_idx_map_pairs, comprehension_get. intros Hget.
  destruct (get_Some_split _ _ _ Hget) as (d1 & d2 & Hrev & Hfresh).
  assert (Hpairs : pairs = rev d2 ++ (label, idx) :: rev d1).
  { rewrite <- (rev_involutive pairs), Hrev, rev_app_distr. simpl.
    now rewrite <- app_assoc. }
  assert (Hin : In (label, idx) pairs).
  { rewrite Hpairs. apply in_or_app. right. now left. }
  destruct (In_pairs label idx Hin) as [Hlabel Hrange].
  split; [assumption|]. split; [assumption|].
  intros j Hj.
  assert (Hat : nth_error pairs (length (rev d2)) = Some (label, idx)).
  { rewrite Hpairs, nth_error_app2 by lia. now rewrite Nat.sub_diag. }
  apply nth_error_pairs_inv in Hat as [_ Hidx].
  destruct (Nat.le_gt_cases j (length (rev d2))) as [Hle|Hgt]; [lia|].
  exfalso. apply Hfresh.
  pose proof (nth_error_pairs j label Hj) as Hjp.
  rewrite Hpairs, nth_error_app2 in Hjp by lia.
  destruct (j - length (rev d2))%nat as [|k] eqn:Hk; [lia|].
  simpl in Hjp. apply nth_error_In in Hjp. apply in_rev in Hjp.
  unfold keys. apply in_map_iff. now exists (label, Z.of_nat j).
Qed.

Lemma label_2_idx_map_injective label label' idx :
  In (label, idx) (Submit.label_2_idx_map unique_label_values) ->
  In (label', idx) (Submit.label_2_idx_map unique_label_values) ->
  label = label'.
Proof.
  intros H1 H2.
  assert (Hnd : List.NoDup (keys (Submit.label_2_idx_map unique_label_values))).
  { rewrite label_2_idx_map_pairs. apply comprehension_keys_NoDup. }
  apply (In_get_Some _ _ _ Hnd) in H1. apply (In_get_Some _ _ _ Hnd) in H2.
  apply get_label_2_idx_map in H1 as [H1 _].
  apply get_label_2_idx_map in H2 as [H2 _].
  congruence.
Qed.
End AnyList.

(** X1. For any configured list, repeated labels or not, the forward
    map has exactly the configured labels as keys, each once, and has
    at most as many entries as the list. *)
Theorem label_2_idx_map_keys_any_list (unique_label_values : list string) :
  List.NoDup (keys (Submit.label_2_idx_map unique_label_values))
  /\ (forall label,
        is_Some (get (Submit.label_2_idx_map unique_label_values) label)
        <-> In label unique_label_values)
  /\ (len (Submit.label_2_idx_map unique_label_values)
      <= length unique_label_values)%nat.
Proof.
  rewrite label_2_idx_map_pairs. split; [apply comprehension_keys_NoDup|].
  split.
  - intros label. rewrite get_is_Some, comprehension_keys.
    now rewrite map_fst_pairs.
  - unfold len, comprehension.
    etransitivity; [apply fold_set_length|]. simpl.
    rewrite length_combine, indices_length. lia.
Qed.

(** X2. A label is mapped to the position of its last occurrence in
    the configured list: the index is a position holding that label,
    and no later position holds it. *)
Theorem label_2_idx_map_last_occurrence
  (unique_label_values : list string) (label : string) (idx : Z) :
  get (Submit.label_2_idx_map unique_label_values) label = Some idx ->
  nth_error unique_label_values (Z.to_nat idx) = Some label
  /\ 0 <= idx < Z.of_nat (length unique_label_values)
  /\ forall j, nth_error unique_label_values j = Some label -> Z.of_nat j <= idx.
Proof. apply get_label_2_idx_map. Qed.

Lemma label_2_idx_map_last_occurrence_witness :
  get (Submit.label_2_idx_map ["a"; "b"; "a"]) "a" = Some 2
  /\ nth_error ["a"; "b"; "a"] (Z.to_nat 2) = Some "a".
Proof.
  split; [reflexivity|].
  exact (proj1 (label_2_idx_map_last_occurrence ["a"; "b"; "a"] "a" 2 eq_refl)).
Defined.

(** X3. For any configured list the index-to-label map inverts the
    label-to-index map: a label is mapped to an index exactly when that
    index is mapped back to the label. *)
Theorem idx_2_label_map_inverts_any_list
  (unique_label_values : list string) (label : string) (idx : Z) :
  get (Submit.label_2_idx_map unique_label_values) label = Some idx
  <-> get (Submit.idx_2_label_map
             (Submit.label_2_idx_map unique_label_values)) idx = Some label.
Proof.
  set (l2i := Submit.label_2_idx_map unique_label_values).
  assert (Hkeys : List.NoDup (keys l2i)).
  { unfold l2i. rewrite label_2_idx_map_pairs. apply comprehension_keys_NoDup. }
  assert (Hvalues : List.NoDup (values l2i)).
  { apply values_NoDup; [assumption|].
    intros k k' v. apply label_2_idx_map_injective. }
  unfold Submit.idx_2_label_map, items.
  rewrite comprehension_distinct by now rewrite map_fst_swap.
  rewrite (get_Some_iff l2i label idx Hkeys).
  rewrite get_Some_iff by (unfold keys; now rewrite map_fst_swap).
  symmetry. apply In_map_swap.
Qed.

End LabelMapAnyListFacts.

(** ** The task graph *)

Module PipelineFacts.
Import Submit SubmitFacts.

Lemma unconditional_task_triggered (cfg : config) (score : spec_float) (t : task) :
  In (Unconditional, t) (training_pipeline cfg) -> In t (triggered cfg score).
Proof.
  intros Hin. unfold triggered. apply in_map_iff. exists (Unconditional, t).
  split; [reflexivity|]. apply filter_In. now split.
Qed.

Lemma triggered_declared (cfg : config) (score : spec_float) (t : task) :
  In t (triggered cfg score) -> exists g, In (g, t) (training_pipeline cfg).
Proof.
  unfold triggered. rewrite in_map_iff.
  intros ([g t'] & Ht & Hf). simpl in Ht. subst t'.
  apply filter_In in Hf as [Hin _]. eauto.
Qed.

Lemma branch_task_declared (cfg : config) g (t : task) :
  t <> register_model /\ t <> deploy_model
  /\ t <> get_data /\ t <> select_best_model /\ t <> detect_bias ->
  In (g, t) (training_pipeline cfg) ->
  In (g, t) (flat_map parallel_branch (model_names cfg)).
Proof.
  intros Hne. unfold training_pipeline, deployment_branch.
  rewrite !in_app_iff. intros [Hin|[Hin|[Hin|Hin]]].
  - simpl in Hin. intuition congruence.
  - exact Hin.
  - simpl in Hin. intuition congruence.
  - destruct (eq_True (deploy cfg)); simpl in Hin; intuition congruence.
Qed.

(** X4. When the deploy flag does not compare equal to [True] (false,
    absent, or a string such as "true"), registration and deployment
    are not even declared: no score triggers them. *)
Theorem deployment_off_without_flag (cfg : config) (best_f1_score : spec_float) :
  eq_True (deploy cfg) = false ->
  ~ In register_model (triggered cfg best_f1_score)
  /\ ~ In deploy_model (triggered cfg best_f1_score)
  /\ deployment_triggered cfg best_f1_score = false
  /\ (forall g, ~ In (g, register_model) (training_pipeline cfg))
  /\ (forall g, ~ In (g, deploy_model) (training_pipeline cfg)).
Proof.
  intros Hflag.
  assert (Hnone : forall g t, t = register_model \/ t = deploy_model ->
                              ~ In (g, t) (training_pipeline cfg)).
  { intros g t Ht. unfold training_pipeline, deployment_branch.
    rewrite Hflag, !in_app_iff. intros [Hin|[Hin|[Hin|Hin]]].
    - simpl in Hin. destruct Ht; subst; intuition congruence.
    - rewrite in_flat_map in Hin. destruct Hin as (name & _ & Hin).
      simpl in Hin. destruct Ht; subst; intuition congruence.
    - simpl in Hin. destruct Ht; subst; intuition congruence.
    - exact Hin. }
  assert (Hreg : ~ In register_model (triggered cfg best_f1_score)).
  { intros Hin. apply triggered_declared in Hin as [g Hin].
    apply (Hnone g register_model); [now left|assumption]. }
  assert (Hdep : ~ In deploy_model (triggered cfg best_f1_score)).
  { intros Hin. apply triggered_declared in Hin as [g Hin].
    apply (Hnone g deploy_model); [now right|assumption]. }
  split; [exact Hreg|]. split; [exact Hdep|]. split.
  - unfold deployment_triggered.
    rewrite bool_decide_eq_false_2; [reflexivity|].
    now rewrite list_elem_of_In.
  - split; intros g; apply Hnone; [now left|now right].
Qed.

Lemma deployment_off_without_flag_witness :
  eq_True (deploy MoreExamples.quoted_flag) = false
  /\ deployment_triggered MoreExamples.quoted_flag Examples.f_0_75_next = false.
Proof.
  split; [reflexivity|].
  exact (proj1 (proj2 (proj2 (deployment_off_without_flag
                                MoreExamples.quoted_flag Examples.f_0_75_next
                                eq_refl)))).
Defined.

(** X5. Data extraction, best-model selection and bias detection run
    whatever the score and the deploy flag; and a model is prepared
    for, trained and tested exactly when its name is in the configured
    list. *)
Theorem fan_out_and_unconditional_tasks (cfg : config) (best_f1_score : spec_float) :
  In get_data (triggered cfg best_f1_score)
  /\ In select_best_model (triggered cfg best_f1_score)
  /\ In detect_bias (triggered cfg best_f1_score)
  /\ (forall name,
        In (test_huggingface_model name) (triggered cfg best_f1_score)
        <-> In name (model_names cfg))
  /\ (forall name,
        In (train_huggingface_model name) (triggered cfg best_f1_score)
        <-> In name (model_names cfg))
  /\ (forall dataset name,
        In (prepare_data dataset name) (triggered cfg best_f1_score)
        <-> In name (model_names cfg) /\ (dataset = "train" \/ dataset = "holdout")).
Proof.
  assert (Hbranch : forall name t,
             In name (model_names cfg) ->
             In (Unconditional, t) (parallel_branch name) ->
             In t (triggered cfg best_f1_score)).
  { intros name t Hname Ht. apply unconditional_task_triggered.
    unfold training_pipeline. rewrite !in_app_iff. right; left.
    apply in_flat_map. eauto. }
  assert (Hinv : forall t,
             t <> register_model -> t <> deploy_model -> t <> get_data ->
             t <> select_best_model -> t <> detect_bias ->
             In t (triggered cfg best_f1_score) ->
             exists name g, In name (model_names cfg)
                            /\ In (g, t) (parallel_branch name)).
  { intros t H1 H2 H3 H4 H5 Hin. apply triggered_declared in Hin as [g Hin].
    apply branch_task_declared in Hin; [|tauto].
    apply in_flat_map in Hin as (name & Hname & Hin). eauto. }
  split.
  { apply unconditional_task_triggered. unfold training_pipeline.
    rewrite !in_app_iff. left. now left. }
  split.
  { apply unconditional_task_triggered. unfold training_pipeline.
    rewrite !in_app_iff. right; right; left. now left. }
  split.
  { apply unconditional_task_triggered. unfold training_pipeline.
    rewrite !in_app_iff. right; right; left. right. now left. }
  split; [|split].
  - intros name. split.
    + intros Hin. apply Hinv in Hin as (name' & g & Hname & Hin);
        try discriminate.
      simpl in Hin. intuition congruence.
    + intros Hname. apply (Hbranch name); [assumption|]. simpl. tauto.
  - intros name. split.
    + intros Hin. apply Hinv in Hin as (name' & g & Hname & Hin);
        try discriminate.
      simpl in Hin. intuition congruence.
    + intros Hname. apply (Hbranch name); [assumption|]. simpl. tauto.
  - intros dataset name. split.
    + intros Hin. apply Hinv in Hin as (name' & g & Hname & Hin);
        try discriminate.
      simpl in Hin.
      destruct Hin as [[= _ <- <-]|[[= _ <- <-]|[[=]|[[=]|[]]]]]; tauto.
    + intros [Hname [->| ->]]; apply (Hbranch name); try assumption;
        simpl; tauto.
Qed.

(** X6. A NaN never deploys: if the selected score or the configured
    threshold is not a number, the comparison is false and neither
    registration nor deployment runs, with the deploy flag on or off. *)
Theorem nan_never_deploys (cfg : config) (best_f1_score : spec_float) :
  best_f1_score = S754_nan \/ f1_score_threshold cfg = S754_nan ->
  ~ In register_model (triggered cfg best_f1_score)
  /\ ~ In deploy_model (triggered cfg best_f1_score)
  /\ deployment_triggered cfg best_f1_score = false.
Proof.
  intros Hnan.
  assert (Hlt : SFltb (f1_score_threshold cfg) best_f1_score = false).
  { destruct Hnan as [-> | ->]; [|reflexivity].
    now destruct (f1_score_threshold cfg). }
  assert (Hnot : forall t, t = register_model \/ t = deploy_model ->
                           ~ In t (triggered cfg best_f1_score)).
  { intros t Ht. unfold triggered. rewrite in_map_iff.
    intros ([g t'] & Heq & Hf). simpl in Heq. subst t'.
    apply filter_In in Hf as [Hin Hg].
    rewrite (deployment_tasks_guarded cfg t g Ht Hin) in Hg. simpl in Hg.
    congruence. }
  split; [apply Hnot; now left|]. split; [apply Hnot; now right|].
  unfold deployment_triggered.
  rewrite bool_decide_eq_false_2; [reflexivity|].
  rewrite list_elem_of_In. apply Hnot. now left.
Qed.

Lemma nan_never_deploys_witness :
  deployment_triggered Examples.deploying S754_nan = false.
Proof.
  exact (proj2 (proj2 (nan_never_deploys Examples.deploying S754_nan
                         (or_introl eq_refl)))).
Defined.

End PipelineFacts.

(** ** Names the sanitizer leaves alone *)

Module NameFixedPointFacts.
Import PyStr ModelTest NameFacts.

Lemma lower_char_name_char (c : ascii) :
  is_name_char c = true -> lower_char c = c.
Proof.
  destruct c as [[] [] [] [] [] [] [] []]; vm_compute;
    intros H; try reflexivity; discriminate H.
Qed.

Lemma map_chars_fixed (p : ascii -> bool) (f : ascii -> ascii) (s : string) :
  (forall c, p c = true -> f c = c) ->
  all_chars p s = true -> map_chars f s = s.
Proof.
  intros Hf. induction s as [|c s IH]; simpl; [reflexivity|].
  rewrite andb_true_iff. intros [Hc Hs]. now rewrite (Hf c Hc), IH.
Qed.

Lemma take_all n : forall s, (String.length s <= n)%nat -> take n s = s.
Proof.
  induction n as [|n IH]; intros [|c s]; simpl; try reflexivity; try lia.
  intros Hlen. rewrite IH; [reflexivity|lia].
Qed.

Lemma rstrip_nothing x : forall s, last_char s <> Some x -> rstrip x s = s.
Proof.
  induction s as [|c s IH]; simpl; [reflexivity|].
  destruct s as [|c' s'].
  - simpl. intros Hc. destruct (Ascii.eqb c x) eqn:He; [|reflexivity].
    apply Ascii.eqb_eq in He. congruence.
  - intros Hlast. rewrite IH by exact Hlast. reflexivity.
Qed.

Lemma name_fixed (name : string) :
  all_chars is_name_char name = true ->
  starts_alnum name = true ->
  (String.length name <= 128)%nat ->
  last_char name <> Some "-"%char ->
  build_experiment_name name = name.
Proof.
  intros Hchars Hstart Hlen Hlast. unfold build_experiment_name, lower.
  cbv zeta.
  rewrite (map_chars_fixed is_name_char lower_char name lower_char_name_char Hchars).
  rewrite (map_chars_fixed is_name_char _ name); [|intros c Hc; now rewrite Hc|assumption].
  rewrite Hstart. simpl negb. cbv iota.
  rewrite take_all by assumption. now apply rstrip_nothing.
Qed.

(** X7. A name that is already valid (lowercase letters, digits and
    hyphens only, a leading letter or digit, at most 128 characters, no
    trailing hyphen) is returned unchanged. *)
Theorem valid_name_unchanged (name : string) :
  all_chars is_name_char name = true ->
  starts_alnum name = true ->
  (String.length name <= 128)%nat ->
  last_char name <> Some "-"%char ->
  build_experiment_name name = name.
Proof. exact (name_fixed name). Qed.

Lemma valid_name_unchanged_witness :
  build_experiment_name "exp-product-bert-base-multilingual-cased"
  = "exp-product-bert-base-multilingual-cased".
Proof.
  apply valid_name_unchanged.
  - reflexivity.
  - reflexivity.
  - simpl. lia.
  - discriminate.
Defined.

(** What the sanitizer returns is a valid name. *)
Lemma sanitized_name_valid (experiment_name : string) :
  all_chars is_name_char (build_experiment_name experiment_name) = true
  /\ starts_alnum (build_experiment_name experiment_name) = true
  /\ (String.length (build_experiment_name experiment_name) <= 128)%nat
  /\ last_char (build_experiment_name experiment_name) <> Some "-"%char.
Proof.
  unfold build_experiment_name. cbv zeta.
  set (substituted :=
         map_chars (fun c => if is_name_char c then c else "-"%char)
           (lower experiment_name)).
  set (prefixed :=
         if negb (starts_alnum substituted) then "a" +:+ substituted
         else substituted).
  assert (Hchars : all_chars is_name_char prefixed = true).
  { unfold prefixed.
    pose proof (all_chars_substituted (lower experiment_name)) as H.
    fold substituted in H.
    destruct (starts_alnum substituted); simpl; [exact H|].
    change (all_chars is_name_char substituted = true). exact H. }
  assert (Hstart : starts_alnum prefixed = true).
  { unfold prefixed. destruct (starts_alnum substituted) eqn:Hs; simpl;
      [exact Hs|reflexivity]. }
  split; [now apply all_chars_rstrip, all_chars_take|].
  split; [apply starts_alnum_rstrip; now apply (starts_alnum_take 127)|].
  split; [etransitivity; [apply length_rstrip|apply length_take]|].
  apply last_char_rstrip.
Qed.

(** X8. Sanitizing is idempotent: a sanitized name sanitizes to
    itself. *)
Theorem build_experiment_name_idempotent (experiment_name : string) :
  build_experiment_name (build_experiment_name experiment_name)
  = build_experiment_name experiment_name.
Proof.
  destruct (sanitized_name_valid experiment_name)
    as (Hchars & Hstart & Hlen & Hlast).
  now apply name_fixed.
Qed.

End NameFixedPointFacts.

(** ** The model-testing component: failures outside the handler *)

Module RunEdgeFacts.
Import Exn Py PyFacts ModelTest RunFacts ModelTestFacts RunSpec.
Local Open Scope py_scope.

(** X9. A failure of [aiplatform.init] or [aiplatform.start_run]
    (lines 118-121, before the [try]) goes straight to the caller: no
    notification is attempted, the [except] block is not entered and no
    file is written. *)
Theorem tracker_failure_not_notified
  (w : world) (a : args) (tr : trace) (e : exn) :
  failure w call_init = Some e
  \/ (failure w call_init = None /\ failure w call_start_run = Some e) ->
  exists new,
    test_huggingface_model_component w a tr = (Raise e, tr ++ new)
    /\ posts new = []
    /\ caught new = []
    /\ (forall fs0 p, files_after new fs0 p = fs0 p).
Proof.
  intros Hfail. rewrite component_run. cbv zeta.
  destruct Hfail as [Hinit|[Hinit Hstart]].
  - rewrite Hinit. exists []. rewrite app_nil_r. now repeat split.
  - rewrite Hinit, Hstart. eexists [_]. now repeat split.
Qed.

Lemma tracker_failure_not_notified_witness :
  exists new,
    test_huggingface_model_component MoreExamples.tracker_down_world
      (Examples.args3 (Some Examples.webhook)) []
    = (Raise MoreExamples.tracker_down, [] ++ new)
    /\ posts new = [].
Proof.
  destruct (tracker_failure_not_notified MoreExamples.tracker_down_world
              (Examples.args3 (Some Examples.webhook)) []
              MoreExamples.tracker_down (or_introl eq_refl))
    as (new & Hrun & Hposts & _).
  exists new. now split.
Defined.

(** X10. An exception that is not an [Exception] (a keyboard
    interrupt, a system exit) raised by the body is not handled: it
    propagates after the "started" notification alone, with no failure
    notification. *)
Theorem non_exception_bypasses_handler
  (w : world) (a : args) (tr : trace) (e : exn) (mid : trace) :
  transport_raises_RequestException (transport w) ->
  failure w call_init = None ->
  failure w call_start_run = None ->
  evaluate w a (invert_label_map (label_map a)) [] = (Raise e, mid) ->
  is_Exception (class e) = false ->
  exists new,
    test_huggingface_model_component w a tr = (Raise e, tr ++ new)
    /\ caught new = []
    /\ posts new = notification w a " started" "0" true.
Proof.
  intros Htransport Hinit Hstart Hev Hclass.
  rewrite component_run, Hinit, Hstart. cbv zeta.
  set (init := Init _ _ _). set (start_run := StartRun _).
  set (idx := invert_label_map (label_map a)) in *.
  destruct (try_statement_run w a idx ((tr ++ [init]) ++ [start_run]) Htransport)
    as (n1 & n2 & Hn1 & Hposts1 & Hn2 & Hrun).
  pose proof (evaluate_events w a idx) as Hmid.
  rewrite Hev in Hrun, Hmid. simpl in Hrun, Hmid. rewrite Hclass in Hrun.
  destruct Hrun as [_ ->].
  destruct (evaluate_events_quiet w a mid Hmid) as [Hquiet Hnone].
  exists ([init; start_run] ++ n1 ++ mid).
  split; [f_equal; now rewrite <- !app_assoc|].
  split.
  - unfold caught. rewrite !List.filter_app. simpl.
    fold (caught n1) (caught mid).
    now rewrite (notifications_caught n1 Hn1), Hnone.
  - rewrite !posts_app, Hposts1, Hquiet. simpl. now rewrite app_nil_r.
Qed.

Lemma non_exception_bypasses_handler_witness :
  exists new,
    test_huggingface_model_component MoreExamples.interrupted_world
      (Examples.args3 (Some Examples.webhook)) []
    = (Raise MoreExamples.interrupt, [] ++ new)
    /\ caught new = [].
Proof.
  destruct (non_exception_bypasses_handler MoreExamples.interrupted_world
              (Examples.args3 (Some Examples.webhook)) []
              MoreExamples.interrupt []
              transport_up_fails_by_RequestException
              eq_refl eq_refl eq_refl eq_refl)
    as (new & Hrun & Hcaught & _).
  exists new. now split.
Defined.

Lemma if_slack_url_off w a message_str duration ok tr :
  endpoint a = None ->
  if_slack_url w a message_str duration ok tr = (Return tt, tr).
Proof.
  unfold endpoint, if_slack_url. destruct (slack_url a) as [url|]; [|reflexivity].
  destruct (PyStr.truthy url); [discriminate|reflexivity].
Qed.

Lemma try_statement_off w a idx tr :
  endpoint a = None ->
  try_except (try_body w a idx) is_Exception (except_block w a) tr
  = match fst (evaluate w a idx []) with
    | Return out => (Return out, tr ++ snd (evaluate w a idx []))
    | Raise e =>
        (Raise e,
         tr ++ snd (evaluate w a idx [])
         ++ (if is_Exception (class e) then [Caught e] else []))
    end.
Proof.
  intros Hoff. unfold try_except, try_body, bind.
  rewrite (if_slack_url_off w a _ _ _ tr Hoff).
  rewrite (evaluate_oblivious w a idx tr).
  destruct (fst (evaluate w a idx [])) as [out|e].
  - now rewrite if_slack_url_off.
  - destruct (is_Exception (class e)).
    + unfold except_block, bind, emit.
      rewrite if_slack_url_off by assumption. unfold raise.
      now rewrite <- app_assoc.
    + now rewrite app_nil_r.
Qed.

(** X11. With no endpoint configured ([slack_url] absent or empty) the
    transport is never used: the run is the same under every transport,
    and it posts nothing. *)
Theorem no_endpoint_transport_unused
  (w : world) (t : nat -> post_result) (a : args) (tr : trace) :
  endpoint a = None ->
  test_huggingface_model_component (with_transport w t) a tr
  = test_huggingface_model_component w a tr
  /\ posts (snd (test_huggingface_model_component w a tr)) = posts tr.
Proof.
  intros Hoff. rewrite !component_run. cbv zeta.
  change (failure (with_transport w t)) with (failure w).
  change (epoch (with_transport w t)) with (epoch w).
  destruct (failure w call_init); [now split|].
  destruct (failure w call_start_run).
  { split; [reflexivity|]. simpl. now rewrite posts_app, app_nil_r. }
  rewrite !try_statement_off by assumption.
  change (evaluate (with_transport w t) a) with (evaluate w a).
  split; [reflexivity|].
  pose proof (evaluate_events w a (invert_label_map (label_map a))) as Hmid.
  apply evaluate_events_quiet in Hmid as [Hmid _].
  destruct (evaluate w a (invert_label_map (label_map a)) [])
    as [[out|e] mid]; simpl in *.
  - rewrite !posts_app, Hmid. simpl. now rewrite !app_nil_r.
  - rewrite !posts_app, Hmid. destruct (is_Exception (class e)); simpl;
      now rewrite !app_nil_r.
Qed.

Lemma no_endpoint_transport_unused_witness :
  test_huggingface_model_component
    (with_transport Examples.good_world Examples.transport_down)
    (Examples.args3 (Some "")) []
  = test_huggingface_model_component Examples.good_world
      (Examples.args3 (Some "")) [].
Proof.
  exact (proj1 (no_endpoint_transport_unused Examples.good_world
                  Examples.transport_down (Examples.args3 (Some "")) []
                  eq_refl)).
Defined.

End RunEdgeFacts.

(** ** The model-testing component: what is posted and persisted *)

Module RunRecordFacts.
Import Exn Py PyFacts ModelTest RunFacts ModelTestFacts RunSpec.
Local Open Scope py_scope.

Lemma endpoint_Some a url :
  endpoint a = Some url -> slack_url a = Some url /\ PyStr.truthy url = true.
Proof.
  unfold endpoint. destruct (slack_url a) as [url'|]; [|discriminate].
  destruct (PyStr.truthy url') eqn:Htruthy; [|discriminate].
  intros [= ->]. now split.
Qed.

(** X12. A "started" notification that fails outside [requests]'
    exception hierarchy is not caught by the helper: the body is over
    before any evaluation, the [except] block is entered with that
    exception, and the run does not return; nothing but the two tracker
    calls and the handler entry is recorded besides notifications. *)
Theorem started_notification_failure_aborts
  (w : world) (a : args) (tr : trace) (url : string) (e : exn) :
  endpoint a = Some url ->
  failure w call_init = None ->
  failure w call_start_run = None ->
  transport w (length (posts tr)) = Fails e ->
  is_RequestException (class e) = false ->
  is_Exception (class e) = true ->
  exists new,
    snd (test_huggingface_model_component w a tr) = tr ++ new
    /\ returns (fst (test_huggingface_model_component w a tr)) = false
    /\ core new
       = [ Init (project_id a) (location a)
             (build_experiment_name
                ("exp-" +:+ label_name a +:+ "-" +:+ huggingface_model_name a));
           StartRun ("run-" +:+ epoch w);
           Caught e ].
Proof.
  intros Hendpoint Hinit Hstart Hfails Hrequest Hclass.
  apply endpoint_Some in Hendpoint as [Hurl Htruthy].
  rewrite component_run, Hinit, Hstart. cbv zeta.
  set (init := Init _ _ _). set (start_run := StartRun _).
  set (idx := invert_label_map (label_map a)).
  assert (Hcount : length (posts ((tr ++ [init]) ++ [start_run]))
                   = length (posts tr)).
  { rewrite !posts_app. simpl. now rewrite !app_nil_r. }
  set (post := Post url (message_of (headline a " started") (start_date w)
                           (start_time w) "0" true)).
  assert (Hbody : try_body w a idx ((tr ++ [init]) ++ [start_run])
                  = (Raise e, ((tr ++ [init]) ++ [start_run]) ++ [post])).
  { unfold try_body, bind at 1, if_slack_url. rewrite Hurl, Htruthy.
    unfold send_slack_message, try_except, bind, requests_post.
    now rewrite Hcount, Hfails, Hrequest. }
  unfold try_except. rewrite Hbody, Hclass.
  unfold except_block, bind, emit.
  match goal with
  | |- context [if_slack_url ?w ?a ?m ?d ?ok ?t] =>
      destruct (if_slack_url_emits w a m d ok t) as (n & Hn & Hnotif);
      destruct (if_slack_url w a m d ok t) as [[[]|e'] t']
  end; simpl in Hn; subst t'; simpl;
    exists ([init; start_run] ++ [post] ++ [Caught e] ++ n);
    (split; [now rewrite <- !app_assoc|]);
    (split; [reflexivity|]);
    rewrite !core_app, (notifications_core n Hnotif); reflexivity.
Qed.

Lemma started_notification_failure_aborts_witness :
  returns (fst (test_huggingface_model_component
                  MoreExamples.broken_transport_world
                  (Examples.args3 (Some Examples.webhook)) [])) = false.
Proof.
  destruct (started_notification_failure_aborts
              MoreExamples.broken_transport_world
              (Examples.args3 (Some Examples.webhook)) [] Examples.webhook
              MoreExamples.not_a_request_exception
              eq_refl eq_refl eq_refl eq_refl eq_refl eq_refl)
    as (new & _ & Hreturns & _).
  exact Hreturns.
Defined.

Lemma if_slack_url_posts w a message_str duration :
  emits (post_event w a) (if_slack_url w a message_str duration true).
Proof.
  unfold if_slack_url. destruct (slack_url a) as [url|] eqn:Hurl;
    [|apply emits_ret].
  destruct (PyStr.truthy url) eqn:Htruthy; [|apply emits_ret].
  unfold send_slack_message. apply emits_try_except.
  - apply emits_bind.
    + intros tr. unfold requests_post.
      eexists [Post url _].
      destruct (transport w (length (posts tr))); simpl;
        (split; [reflexivity|]); repeat constructor;
        try (unfold endpoint; now rewrite Hurl, Htruthy); eauto.
    + intros status. unfold raise_for_status.
      destruct ((400 <=? status) && (status <? 600));
        [apply emits_raise|apply emits_ret].
  - intros e. now apply emits_emit.
Qed.

Lemma evaluate_post_event w a ev : evaluate_event w a ev -> post_event w a ev.
Proof. destruct ev; simpl; trivial; contradiction. Qed.

Lemma component_posts w a :
  emits (post_event w a) (test_huggingface_model_component w a).
Proof.
  unfold test_huggingface_model_component. cbv zeta.
  apply emits_bind; [apply emits_external; exact I|intros _].
  apply emits_bind; [apply emits_external; exact I|intros _].
  apply emits_try_except.
  - unfold try_body.
    apply emits_bind; [apply if_slack_url_posts|intros _].
    apply emits_bind;
      [eapply emits_weaken; [apply evaluate_post_event|apply evaluate_emits]
      |intros out].
    apply emits_bind; [apply if_slack_url_posts|intros _].
    apply emits_ret.
  - intros e. unfold except_block.
    apply emits_bind; [apply emits_emit; exact I|intros _].
    apply emits_bind; [apply if_slack_url_posts|intros _].
    apply emits_raise.
Qed.

(** X13. Whatever the transport does, every post of a run goes to the
    configured endpoint and to no other URL, carries the date and time
    of the start of the run, and is built with [is_success = True]: its
    color is the success color, for failure notices too. *)
Theorem posts_only_to_endpoint (w : world) (a : args) (tr : trace) :
  exists new,
    snd (test_huggingface_model_component w a tr) = tr ++ new
    /\ forall url json,
         In (Post url json) new ->
         endpoint a = Some url
         /\ map color (attachments json) = ["#36a64f"]
         /\ exists message_str duration,
              json = message_of message_str (start_date w) (start_time w)
                       duration true.
Proof.
  destruct (component_posts w a tr) as (new & Hnew & Hevents).
  exists new. split; [exact Hnew|].
  intros url json Hin.
  rewrite List.Forall_forall in Hevents. specialize (Hevents _ Hin).
  simpl in Hevents. destruct Hevents as [Hendpoint (message_str & duration & ->)].
  split; [assumption|]. split; [reflexivity|]. eauto.
Qed.

(** The trace of a run that returns. *)
Lemma return_trace w a tr :
  returns (fst (test_huggingface_model_component w a tr)) = true ->
  exists n0 n1 n2 out cm ppl rpl fpl,
    test_huggingface_model_component w a tr
    = (Return out,
       tr ++ n0 ++ n1
       ++ success_events w a cm out (metrics_record a out ppl rpl fpl) ++ n2)
    /\ core n0 = n0
    /\ (forall fs0 p, files_after n0 fs0 p = fs0 p)
    /\ Forall is_notification_event n1
    /\ Forall is_notification_event n2
    /\ computed_metrics w a = Some (out, metrics_record a out ppl rpl fpl).
Proof.
  rewrite component_run. cbv zeta.
  set (init := Init _ _ _). set (start_run := StartRun _).
  destruct (failure w call_init); [discriminate|].
  destruct (failure w call_start_run); [discriminate|].
  set (idx := invert_label_map (label_map a)).
  unfold try_except.
  destruct (try_body w a idx ((tr ++ [init]) ++ [start_run]))
    as [[out|e] tr'] eqn:Hbody.
  - intros _. unfold try_body, bind in Hbody.
    destruct (if_slack_url_emits w a (headline a " started") "0" true
                ((tr ++ [init]) ++ [start_run])) as (n1 & Hn1 & Hnotif1).
    destruct (if_slack_url w a (headline a " started") "0" true
                ((tr ++ [init]) ++ [start_run])) as [[[]|e1] t1];
      [|discriminate Hbody].
    simpl in Hn1. subst t1.
    rewrite (evaluate_oblivious w a idx) in Hbody.
    destruct (evaluate w a idx []) as [[out'|e2] mid] eqn:Hev;
      simpl in Hbody; [|discriminate Hbody].
    destruct (evaluate_return w a idx out' mid Hev)
      as (examples & cm & ppl & rpl & fpl
          & Hex & _ & Hp & Hr & Hf & Hppl & Hrpl & Hfpl & Hmid).
    match type of Hbody with
    | context [if_slack_url ?w ?a ?m ?d ?ok ?t] =>
        destruct (if_slack_url_emits w a m d ok t) as (n2 & Hn2 & Hnotif2);
        destruct (if_slack_url w a m d ok t) as [[[]|e3] t2];
          [|discriminate Hbody]
    end.
    simpl in Hn2. subst t2. injection Hbody as <- <-.
    exists [init; start_run], n1, n2, out', cm, ppl, rpl, fpl.
    split; [rewrite Hmid; f_equal; now rewrite <- !app_assoc|].
    split; [reflexivity|]. split; [reflexivity|].
    split; [assumption|]. split; [assumption|].
    unfold computed_metrics. rewrite Hex. cbv zeta.
    rewrite Hp, Hr, Hf, Hppl, Hrpl, Hfpl. now destruct out'.
  - destruct (is_Exception (class e)); [|discriminate].
    now rewrite except_block_raises.
Qed.

Lemma files_after_app (n n' : list event) : forall fs0 p,
  files_after (n ++ n') fs0 p = files_after n' (files_after n fs0) p.
Proof.
  induction n as [|ev n IH]; intros fs0 p; [reflexivity|].
  destruct ev; simpl; apply IH.
Qed.

Lemma files_after_notifications n : forall fs0 p,
  Forall is_notification_event n -> files_after n fs0 p = fs0 p.
Proof.
  intros fs0 p Hn. rewrite files_after_core, (notifications_core n Hn).
  reflexivity.
Qed.

(** X15. A run that returns has persisted what it returns: the record
    in the metrics file is the computed one, its precision, recall and
    f1 are the returned triple, and the same three values were logged
    as scalar metrics. *)
Theorem returned_triple_is_persisted (w : world) (a : args) (tr : trace) :
  returns (fst (test_huggingface_model_component w a tr)) = true ->
  exists out m new,
    test_huggingface_model_component w a tr = (Return out, tr ++ new)
    /\ computed_metrics w a = Some (out, m)
    /\ (forall fs0,
          files_after new fs0 (local_path w (uri0 a metrics_artifact))
          = Some (Json m))
    /\ mi_precision m = precision out
    /\ mi_recall m = recall out
    /\ mi_f1 m = f1_score out
    /\ In (LogMetric "precision" (precision out)) new
    /\ In (LogMetric "recall" (recall out)) new
    /\ In (LogMetric "f1" (f1_score out)) new
    /\ In (LogMetrics m) new.
Proof.
  intros Hreturns.
  destruct (return_trace w a tr Hreturns)
    as (n0 & n1 & n2 & out & cm & ppl & rpl & fpl
        & Hrun & _ & Hn0 & Hn1 & Hn2 & Hcomputed).
  exists out, (metrics_record a out ppl rpl fpl),
    (n0 ++ n1
     ++ success_events w a cm out (metrics_record a out ppl rpl fpl) ++ n2).
  split; [exact Hrun|]. split; [exact Hcomputed|].
  split.
  { intros fs0. rewrite !files_after_app.
    rewrite (files_after_notifications n2) by assumption.
    unfold success_events. simpl.
    now destruct (decide (local_path w (uri0 a metrics_artifact)
                          = local_path w (uri0 a metrics_artifact))). }
  do 3 (split; [reflexivity|]).
  unfold success_events.
  repeat split; apply in_or_app; right; apply in_or_app; right;
    apply in_or_app; left; simpl; tauto.
Qed.

Lemma returned_triple_is_persisted_witness :
  exists out m,
    fst (test_huggingface_model_component Examples.good_world
           (Examples.args3 None) []) = Return out
    /\ computed_metrics Examples.good_world (Examples.args3 None) = Some (out, m)
    /\ mi_f1 m = f1_score out.
Proof.
  destruct (returned_triple_is_persisted Examples.good_world
              (Examples.args3 None) [] eq_refl)
    as (out & m & new & Hrun & Hcomputed & _ & _ & _ & Hf1 & _).
  exists out, m. rewrite Hrun. now repeat split.
Defined.

Lemma uri_after_either w a (n : list event) : forall u0,
  Forall (component_event w a) n ->
  uri_after n u0 reusable_model = u0 reusable_model
  \/ uri_after n u0 reusable_model = uri0 a model.
Proof.
  induction n as [|ev n IH]; intros u0 Hn; [now left|].
  inversion Hn as [|? ? Hev Hn']; subst.
  destruct ev; simpl; try (now apply IH).
  destruct Hev as [-> ->]. right.
  apply (uri_after_set w a); [assumption|].
  now destruct (decide (reusable_model = reusable_model)).
Qed.

(** X16. Every run, failing ones included, leaves the URI of every
    artifact but [reusable_model] as it was (the input model among
    them), leaves [reusable_model] either untouched or pointing at the
    input model, and changes no file except the metrics file. *)
Theorem every_run_leaves_model_untouched (w : world) (a : args) (tr : trace) :
  exists new,
    snd (test_huggingface_model_component w a tr) = tr ++ new
    /\ (forall b, b <> reusable_model -> uri_after new (uri0 a) b = uri0 a b)
    /\ (uri_after new (uri0 a) reusable_model = uri0 a reusable_model
        \/ uri_after new (uri0 a) reusable_model = uri0 a model)
    /\ (forall fs0 p,
          p <> local_path w (uri0 a metrics_artifact) ->
          files_after new fs0 p = fs0 p).
Proof.
  destruct (component_emits w a tr) as (new & Hnew & Hevents).
  exists new. split; [exact Hnew|].
  split; [intros b Hb; now apply (uri_after_frame w a)|].
  split; [now apply (uri_after_either w a)|].
  intros fs0 p Hp. now apply (files_after_frame w a).
Qed.

End RunRecordFacts.

(** ** The per-label arrays and the labels that occur *)

Module PerLabelFacts.
Import Exn Sklearn MetricSpec ModelTest RunSpec.

Lemma In_insert_unique x y l : In x (insert_unique y l) <-> x = y \/ In x l.
Proof.
  induction l as [|z l IH]; simpl; [intuition|].
  destruct (Z.ltb_spec y z); simpl; [intuition|].
  destruct (Z.eqb_spec y z) as [->|Hne]; simpl; [intuition|].
  rewrite IH. intuition.
Qed.

Lemma increasing_cons x l :
  increasing (x :: l) = true <->
  increasing l = true /\ match l with y :: _ => x < y | [] => True end.
Proof.
  destruct l as [|y l]; simpl; [tauto|].
  rewrite andb_true_iff, Z.ltb_lt. tauto.
Qed.

Lemma increasing_insert_unique x l :
  increasing l = true -> increasing (insert_unique x l) = true.
Proof.
  induction l as [|y l IH]; intros Hl; [reflexivity|].
  simpl insert_unique.
  destruct (Z.ltb_spec x y).
  - apply increasing_cons. split; [assumption|assumption].
  - destruct (Z.eqb_spec x y) as [->|Hne]; [assumption|].
    apply increasing_cons in Hl as [Hl Hhead].
    apply increasing_cons. split; [now apply IH|].
    destruct l as [|z l]; simpl.
    + lia.
    + destruct (Z.ltb_spec x z); [lia|].
      destruct (Z.eqb_spec x z); [assumption|assumption].
Qed.

Lemma unique_labels_In y_true y_pred l :
  In l (unique_labels y_true y_pred) <-> In l (y_true ++ y_pred).
Proof.
  unfold unique_labels. induction (y_true ++ y_pred) as [|x xs IH]; simpl;
    [tauto|].
  rewrite In_insert_unique, IH. intuition.
Qed.

Lemma unique_labels_increasing y_true y_pred :
  increasing (unique_labels y_true y_pred) = true.
Proof.
  unfold unique_labels. induction (y_true ++ y_pred) as [|x xs IH]; simpl;
    [reflexivity|].
  now apply increasing_insert_unique.
Qed.

Lemma increasing_bounded (l : list Z) : forall lo hi,
  increasing l = true ->
  (forall x, In x l -> lo <= x < hi) ->
  Z.of_nat (length l) <= Z.max 0 (hi - lo).
Proof.
  induction l as [|x l IH]; intros lo hi Hinc Hrange; [simpl; lia|].
  apply increasing_cons in Hinc as [Hinc Hhead].
  pose proof (Hrange x (or_introl eq_refl)) as Hx.
  assert (Htail : forall y, In y l -> x + 1 <= y < hi).
  { destruct l as [|z l']; [contradiction|].
    intros y Hy. split; [|apply Hrange; now right].
    simpl in Hhead. clear IH Hrange Hx. revert z Hhead Hinc y Hy.
    induction l' as [|z' l'' IHl]; intros z Hhead Hinc y Hy.
    - destruct Hy as [<-|[]]. lia.
    - apply increasing_cons in Hinc as [Hinc Hzz'].
      destruct Hy as [<-|Hy]; [lia|].
      apply (IHl z'); [lia|assumption|assumption]. }
  specialize (IH (x + 1) hi Hinc Htail).
  change (length (x :: l)) with (S (length l)). lia.
Qed.

(** X17. The three per-label arrays have the same length, the number
    of distinct labels among the true and the predicted classes; when
    these are class indices 0..K-1 it is at most K, and the arrays are
    ordered by increasing class index over the classes that occur. *)
Theorem per_label_arrays_follow_observed_labels
  (K : Z) (y_true y_pred : list Z) (m : metric) (scores : list Q) :
  (forall l, In l (y_true ++ y_pred) -> 0 <= l < K) ->
  score_per_label m y_true y_pred = Return scores ->
  scores = map (label_score m y_true y_pred) (unique_labels y_true y_pred)
  /\ Z.of_nat (length scores) <= Z.max 0 K
  /\ increasing (unique_labels y_true y_pred) = true
  /\ (forall l, In l (unique_labels y_true y_pred) <-> In l (y_true ++ y_pred)).
Proof.
  intros Hrange. unfold score_per_label.
  destruct (negb (length y_true =? length y_pred)%nat); [discriminate|].
  intros [= <-]. split; [reflexivity|].
  split.
  { rewrite length_map, <- (Z.sub_0_r K).
    apply increasing_bounded; [apply unique_labels_increasing|].
    intros l Hl. apply Hrange. now apply unique_labels_In. }
  split; [apply unique_labels_increasing|].
  intros l. apply unique_labels_In.
Qed.

Lemma per_label_arrays_follow_observed_labels_witness :
  exists scores,
    score_per_label Precision (map fst Examples.holdout) (map snd Examples.holdout)
    = Return scores
    /\ Z.of_nat (length scores) <= Z.max 0 3.
Proof.
  eexists. split; [reflexivity|].
  refine (proj1 (proj2 (per_label_arrays_follow_observed_labels 3
                          (map fst Examples.holdout) (map snd Examples.holdout)
                          Precision _ _ eq_refl))).
  intros l Hl. simpl in Hl.
  repeat (destruct Hl as [<-|Hl]; [lia|]). contradiction.
Defined.

End PerLabelFacts.

(** ** The scores are between 0 and 1 *)

Module ScoreRangeFacts.
Import Exn Py Sklearn MetricSpec ModelTest RunSpec RunRecordFacts.

Lemma filter_length_le {A : Type} (f g : A -> bool) (l : list A) :
  (forall x, f x = true -> g x = true) ->
  (length (List.filter f l) <= length (List.filter g l))%nat.
Proof.
  intros Hfg. induction l as [|x l IH]; simpl; [lia|].
  destruct (f x) eqn:Hf.
  - rewrite (Hfg x Hf). simpl. lia.
  - destruct (g x); simpl; lia.
Qed.

Lemma tp_le_pred y_true y_pred l :
  tp_sum y_true y_pred l <= pred_sum y_true y_pred l.
Proof.
  unfold tp_sum, pred_sum, count_if. apply inj_le, filter_length_le.
  intros [t p]. rewrite andb_true_iff. tauto.
Qed.

Lemma tp_le_true y_true y_pred l :
  tp_sum y_true y_pred l <= true_sum y_true y_pred l.
Proof.
  unfold tp_sum, true_sum, count_if. apply inj_le, filter_length_le.
  intros [t p]. rewrite andb_true_iff. tauto.
Qed.

Lemma tp_nonneg y_true y_pred l : 0 <= tp_sum y_true y_pred l.
Proof. unfold tp_sum, count_if. lia. Qed.

Lemma true_sum_nonneg y_true y_pred l : 0 <= true_sum y_true y_pred l.
Proof. unfold true_sum, count_if. lia. Qed.

Lemma prf_divide_unit (numerator denominator : Z) :
  0 <= numerator <= denominator ->
  in_unit_interval (prf_divide numerator denominator).
Proof.
  intros [Hn Hd]. unfold prf_divide, in_unit_interval.
  destruct (Z.eqb_spec denominator 0) as [->|Hne].
  - split; discriminate.
  - assert (Hpos : (0 < inject_Z denominator)%Q).
    { change 0%Q with (inject_Z 0). rewrite <- (Zlt_Qlt 0 denominator). lia. }
    split.
    + apply Qle_shift_div_l; [assumption|].
      rewrite Qmult_0_l. change 0%Q with (inject_Z 0).
      rewrite <- (Zle_Qle 0 numerator). assumption.
    + apply Qle_shift_div_r; [assumption|].
      rewrite Qmult_1_l. rewrite <- Zle_Qle. assumption.
Qed.

Lemma label_score_unit m y_true y_pred l :
  in_unit_interval (label_score m y_true y_pred l).
Proof.
  pose proof (tp_le_pred y_true y_pred l).
  pose proof (tp_le_true y_true y_pred l).
  pose proof (tp_nonneg y_true y_pred l).
  destruct m; simpl; apply prf_divide_unit; lia.
Qed.

Lemma weighted_sum_bounds (w : Z -> Z) (s : Z -> Q) (labels : list Z) :
  (forall l, 0 <= w l) ->
  (forall l, in_unit_interval (s l)) ->
  (0 <= Qsum (map (fun l => inject_Z (w l) * s l) labels))%Q
  /\ (Qsum (map (fun l => inject_Z (w l) * s l) labels)
      <= inject_Z (fold_right Z.add 0%Z (map w labels)))%Q.
Proof.
  intros Hw Hs. induction labels as [|l labels [IH0 IH1]]; simpl.
  - split; discriminate.
  - destruct (Hs l) as [Hs0 Hs1].
    assert (Hwl : (0 <= inject_Z (w l))%Q).
    { change 0%Q with (inject_Z 0). rewrite <- (Zle_Qle 0 (w l)). apply Hw. }
    split.
    + rewrite <- (Qplus_0_l 0).
      apply Qplus_le_compat; [now apply Qmult_le_0_compat|assumption].
    + rewrite inject_Z_plus. apply Qplus_le_compat; [|assumption].
      rewrite <- (Qmult_1_l (inject_Z (w l))) at 2.
      rewrite (Qmult_comm (inject_Z (w l)) (s l)).
      now apply Qmult_le_compat_r.
Qed.

Lemma score_weighted_unit m y_true y_pred q :
  score_weighted m y_true y_pred = Return q -> in_unit_interval q.
Proof.
  unfold score_weighted.
  destruct (negb (length y_true =? length y_pred)%nat); [discriminate|].
  cbv zeta.
  set (labels := unique_labels y_true y_pred).
  set (total := fold_right Z.add 0 (map (true_sum y_true y_pred) labels)).
  destruct (Z.eqb_spec total 0) as [Hzero|Hne].
  - intros [= <-]. split; discriminate.
  - intros [= <-].
    destruct (weighted_sum_bounds (true_sum y_true y_pred)
                (label_score m y_true y_pred) labels
                (true_sum_nonneg y_true y_pred)
                (label_score_unit m y_true y_pred)) as [H0 H1].
    fold total in H1.
    assert (Htotal : 0 <= total).
    { unfold total. clear. induction labels as [|l labels IH]; simpl; [lia|].
      pose proof (true_sum_nonneg y_true y_pred l). lia. }
    assert (Hpos : (0 < inject_Z total)%Q).
    { change 0%Q with (inject_Z 0). rewrite <- (Zlt_Qlt 0 total). lia. }
    split.
    + apply Qle_shift_div_l; [assumption|]. now rewrite Qmult_0_l.
    + apply Qle_shift_div_r; [assumption|]. now rewrite Qmult_1_l.
Qed.

Lemma score_per_label_unit m y_true y_pred scores :
  score_per_label m y_true y_pred = Return scores ->
  Forall in_unit_interval scores.
Proof.
  unfold score_per_label.
  destruct (negb (length y_true =? length y_pred)%nat); [discriminate|].
  intros [= <-]. apply List.Forall_forall. intros q Hq.
  apply in_map_iff in Hq as (l & <- & _). apply label_score_unit.
Qed.

(** X18. A run that returns, returns a precision, a recall and an F1
    score between 0 and 1, and every entry of the per-label arrays it
    persists is between 0 and 1 as well. *)
Theorem returned_scores_in_unit_interval (w : world) (a : args) (tr : trace) :
  returns (fst (test_huggingface_model_component w a tr)) = true ->
  exists out m,
    fst (test_huggingface_model_component w a tr) = Return out
    /\ computed_metrics w a = Some (out, m)
    /\ in_unit_interval (precision out)
    /\ in_unit_interval (recall out)
    /\ in_unit_interval (f1_score out)
    /\ Forall in_unit_interval (mi_precision_per_label m)
    /\ Forall in_unit_interval (mi_recall_per_label m)
    /\ Forall in_unit_interval (mi_f1_per_label m).
Proof.
  intros Hreturns.
  destruct (return_trace w a tr Hreturns)
    as (n0 & n1 & n2 & out & cm & ppl & rpl & fpl & Hrun & _ & _ & _ & _ & Hc).
  exists out, (metrics_record a out ppl rpl fpl).
  split; [now rewrite Hrun|]. split; [exact Hc|].
  unfold computed_metrics in Hc.
  destruct (examples_of w a) as [examples|]; [|discriminate]. cbv zeta in Hc.
  destruct (score_weighted Precision _ _) as [p|] eqn:Hp; [|discriminate].
  destruct (score_weighted Recall _ _) as [r|] eqn:Hr; [|discriminate].
  destruct (score_weighted F1 _ _) as [f|] eqn:Hf; [|discriminate].
  destruct (score_per_label Precision _ _) as [ppl'|] eqn:Hppl; [|discriminate].
  destruct (score_per_label Recall _ _) as [rpl'|] eqn:Hrpl; [|discriminate].
  destruct (score_per_label F1 _ _) as [fpl'|] eqn:Hfpl; [|discriminate].
  injection Hc as <- <- <- <-. simpl. subst ppl' rpl' fpl'.
  split; [eapply score_weighted_unit; eassumption|].
  split; [eapply score_weighted_unit; eassumption|].
  split; [eapply score_weighted_unit; eassumption|].
  split; [eapply score_per_label_unit; eassumption|].
  split; eapply score_per_label_unit; eassumption.
Qed.

Lemma returned_scores_in_unit_interval_witness :
  exists out,
    fst (test_huggingface_model_component Examples.good_world
           (Examples.args3 None) []) = Return out
    /\ in_unit_interval (f1_score out).
Proof.
  destruct (returned_scores_in_unit_interval Examples.good_world
              (Examples.args3 None) [] eq_refl)
    as (out & m & Hrun & _ & _ & _ & Hf1 & _).
  exists out. now split.
Defined.

End ScoreRangeFacts.

(** ** Every test example is counted once in the confusion matrix *)

Module MatrixTotalFacts.
Import Exn PyDict PyDictFacts Sklearn MetricSpec ModelTest ConfusionMatrixFacts.

Lemma row_total_add {A : Type} (f g : A -> Z) (l : list A) :
  row_total (map (fun v => f v + g v) l)
  = row_total (map f l) + row_total (map g l).
Proof. unfold row_total. induction l as [|x l IH]; simpl; lia. Qed.

Lemma row_total_zero {A : Type} (l : list A) :
  row_total (map (fun _ => 0) l) = 0.
Proof. unfold row_total. induction l as [|x l IH]; simpl; lia. Qed.

Lemma sum_indicator_absent (V : list Z) k :
  ~ In k V -> row_total (map (fun v => if k =? v then 1 else 0) V) = 0.
Proof.
  unfold row_total. induction V as [|v V IH]; simpl; [reflexivity|].
  intros Hk. destruct (Z.eqb_spec k v) as [->|Hne]; [tauto|].
  rewrite IH by tauto. reflexivity.
Qed.

Lemma sum_indicator (V : list Z) k :
  List.NoDup V -> In k V ->
  row_total (map (fun v => if k =? v then 1 else 0) V) = 1.
Proof.
  induction V as [|v V IH]; simpl; [tauto|].
  intros Hnd Hin. inversion Hnd as [|? ? Hv Hnd']; subst.
  unfold row_total in *. simpl.
  destruct (Z.eqb_spec k v) as [->|Hne].
  - fold (row_total (map (fun v0 => if v =? v0 then 1 else 0) V)).
    rewrite sum_indicator_absent by assumption. reflexivity.
  - rewrite IH; [reflexivity|assumption|]. destruct Hin; congruence.
Qed.

(** Counting by key over all keys is counting. *)
Lemma sum_counts {A : Type} (V : list Z) (key : A -> Z) (f : A -> bool)
  (l : list A) :
  List.NoDup V ->
  (forall x, In x l -> f x = true -> In (key x) V) ->
  row_total
    (map (fun v => Z.of_nat (length (List.filter
                                       (fun x => f x && (key x =? v)) l))) V)
  = Z.of_nat (length (List.filter f l)).
Proof.
  intros Hnd. induction l as [|x l IH]; intros Hkeys.
  - simpl. apply row_total_zero.
  - rewrite (map_ext _
               (fun v => (if f x && (key x =? v) then 1 else 0)
                         + Z.of_nat (length (List.filter
                                               (fun x => f x && (key x =? v)) l)))).
    2:{ intros v. simpl. destruct (f x && (key x =? v)); simpl; lia. }
    rewrite row_total_add, IH by (intros; apply Hkeys; [now right|assumption]).
    simpl. destruct (f x) eqn:Hf; simpl.
    + rewrite sum_indicator; [lia|assumption|].
      apply Hkeys; [now left|assumption].
    + rewrite row_total_zero. lia.
Qed.

Lemma map_seq_nth_error {A B : Type} (f : A -> B) (g : nat -> B) (l : list A) :
  forall start,
    (forall i x, nth_error l i = Some x -> g (start + i)%nat = f x) ->
    map g (seq start (length l)) = map f l.
Proof.
  induction l as [|x l IH]; intros start Hg; simpl; [reflexivity|].
  f_equal.
  - rewrite <- (Hg 0%nat x eq_refl). f_equal. lia.
  - apply IH. intros i y Hi. rewrite <- (Hg (S i) y Hi). f_equal. lia.
Qed.

Lemma count_cell_examples_total (V : list Z) (examples : list (Z * Z)) :
  List.NoDup V ->
  (forall t p, In (t, p) examples -> In t V /\ In p V) ->
  row_total (map (fun a => row_total (map (fun b => count_cell examples a b) V)) V)
  = Z.of_nat (length examples).
Proof.
  intros Hnd Hknown.
  rewrite (map_ext _
             (fun a => Z.of_nat (length (List.filter
                                           (fun x : Z * Z => true && (fst x =? a))
                                           examples)))).
  - rewrite (sum_counts V fst (fun _ => true) examples Hnd).
    + f_equal. induction examples as [|x l IH]; simpl; [reflexivity|].
      f_equal. apply IH. intros; apply (Hknown t p); now right.
    + intros [t p] Hin _. now apply (Hknown t p).
  - intros a. unfold count_cell.
    rewrite (map_ext _
               (fun b => Z.of_nat (length (List.filter
                                             (fun x : Z * Z =>
                                                (fst x =? a) && (snd x =? b))
                                             examples)))).
    + rewrite (sum_counts V snd (fun x => fst x =? a) examples Hnd).
      * reflexivity.
      * intros [t p] Hin _. now apply (Hknown t p).
    + intros b. f_equal. f_equal. apply filter_ext. now intros [t p].
Qed.

(** The matrix of the component for a bijective label map. *)
Lemma classification_metrics_built
  (label_map : dict string Z) (examples : list (Z * Z)) :
  List.NoDup (keys label_map) ->
  List.NoDup (values label_map) ->
  label_map <> [] ->
  (forall t p, In (t, p) examples ->
               In t (values label_map) /\ In p (values label_map)) ->
  exists cells,
    build_classification_metrics (invert_label_map label_map)
      (map fst examples) (map snd examples)
    = Return {| matrix := coo_toarray (length label_map) cells;
                labels := keys label_map |}
    /\ forall i j name_i idx_i name_j idx_j,
         nth_error label_map i = Some (name_i, idx_i) ->
         nth_error label_map j = Some (name_j, idx_j) ->
         count_cell cells (Z.of_nat i) (Z.of_nat j)
         = count_cell examples idx_i idx_j.
Proof.
  intros Hkeys Hvalues Hne Hknown.
  destruct (confusion_matrix_decoded label_map Hkeys Hvalues examples Hne Hknown)
    as (cells & Hcm & Hcount).
  exists cells. split; [|exact Hcount].
  unfold build_classification_metrics.
  rewrite (decode_known label_map Hvalues (map fst examples)).
  2:{ intros t Ht. apply in_map_iff in Ht as ([t' p] & <- & Hin).
      now apply (Hknown t' p). }
  rewrite (decode_known label_map Hvalues (map snd examples)).
  2:{ intros p Hp. apply in_map_iff in Hp as ([t p'] & <- & Hin).
      now apply (Hknown t p'). }
  rewrite check_targets_Some by now rewrite !length_map.
  rewrite (inverted_values label_map Hvalues), Hcm.
  unfold keys. now rewrite length_map.
Qed.

(** X19. For a bijective label map and a test set whose class indices
    the map knows, no example is dropped from the confusion matrix: its
    entries add up to the number of test examples. *)
Theorem confusion_matrix_counts_every_example
  (label_map : dict string Z) (examples : list (Z * Z)) :
  List.NoDup (keys label_map) ->
  List.NoDup (values label_map) ->
  label_map <> [] ->
  (forall t p, In (t, p) examples ->
               In t (values label_map) /\ In p (values label_map)) ->
  exists cm,
    build_classification_metrics (invert_label_map label_map)
      (map fst examples) (map snd examples) = Return cm
    /\ matrix_total (matrix cm) = Z.of_nat (length examples).
Proof.
  intros Hkeys Hvalues Hne Hknown.
  destruct (classification_metrics_built label_map examples
              Hkeys Hvalues Hne Hknown) as (cells & Hbuilt & Hcount).
  eexists. split; [exact Hbuilt|]. simpl.
  rewrite <- (count_cell_examples_total (values label_map) examples
                Hvalues Hknown).
  unfold matrix_total, coo_toarray. rewrite map_map.
  unfold values. rewrite map_map.
  f_equal. apply map_seq_nth_error. intros i [name_i idx_i] Hi. simpl.
  rewrite map_map. f_equal.
  apply map_seq_nth_error. intros j [name_j idx_j] Hj. simpl.
  now apply (Hcount i j name_i idx_i name_j idx_j).
Qed.

Lemma confusion_matrix_counts_every_example_witness :
  exists cm,
    build_classification_metrics (invert_label_map Examples.label_map3)
      (map fst Examples.holdout) (map snd Examples.holdout) = Return cm
    /\ matrix_total (matrix cm) = 4.
Proof.
  assert (Hkeys : List.NoDup (keys Examples.label_map3)).
  { repeat (constructor; [simpl; intuition discriminate|]). constructor. }
  assert (Hvalues : List.NoDup (values Examples.label_map3)).
  { repeat (constructor; [simpl; intuition discriminate|]). constructor. }
  assert (Hne : Examples.label_map3 <> []) by discriminate.
  assert (Hknown : forall t p, In (t, p) Examples.holdout ->
                               In t (values Examples.label_map3)
                               /\ In p (values Examples.label_map3)).
  { intros t p Hin. simpl in Hin.
    repeat (destruct Hin as [[= <- <-]|Hin]; [simpl; tauto|]).
    contradiction. }
  exact (confusion_matrix_counts_every_example Examples.label_map3
           Examples.holdout Hkeys Hvalues Hne Hknown).
Defined.

End MatrixTotalFacts.

(** ** The experiment a run is registered under *)

Module ExperimentNameFacts.
Import PyStr ModelTest.

Lemma rstrip_cons_other x c s :
  Ascii.eqb c x = false -> rstrip x (String c s) = String c (rstrip x s).
Proof.
  intros Hc. simpl. destruct (rstrip x s); [now rewrite Hc|reflexivity].
Qed.

(** X20. The experiment name the component builds at line 117 from
    "exp-", the label column and the model name always begins with
    "exp": the leading [a] is never needed for it, and what follows
    "exp" is what the sanitizer leaves of the rest. *)
Theorem component_experiment_name_starts_with_exp
  (label_name huggingface_model_name : string) :
  exists rest,
    build_experiment_name
      ("exp-" +:+ label_name +:+ "-" +:+ huggingface_model_name)
    = "exp" +:+ rest
    /\ rest
       = rstrip "-"
           (take 125
              (String "-"
                 (map_chars (fun c => if is_name_char c then c else "-"%char)
                    (lower (label_name +:+ "-" +:+ huggingface_model_name))))).
Proof.
  eexists. split; [|reflexivity].
  unfold build_experiment_name. cbv zeta.
  change (lower ("exp-" +:+ label_name +:+ "-" +:+ huggingface_model_name))
    with ("exp-" +:+ lower (label_name +:+ "-" +:+ huggingface_model_name)).
  set (tail := lower (label_name +:+ "-" +:+ huggingface_model_name)).
  change (map_chars (fun c => if is_name_char c then c else "-"%char)
            ("exp-" +:+ tail))
    with ("exp-" +:+ map_chars (fun c => if is_name_char c then c else "-"%char)
                       tail).
  set (substituted := map_chars _ tail).
  change (starts_alnum ("exp-" +:+ substituted)) with true.
  simpl negb. cbv iota.
  change (take 128 ("exp-" +:+ substituted))
    with ("exp" +:+ take 125 (String "-" substituted)).
  change ("exp" +:+ take 125 (String "-" substituted))
    with (String "e" (String "x" (String "p" (take 125 (String "-" substituted))))).
  rewrite !rstrip_cons_other by reflexivity. reflexivity.
Qed.

End ExperimentNameFacts.

(** ** Instances on the configured product labels *)

Module ProductLabelFacts.
Import Exn PyDict ModelTest.

Lemma label_2_idx_map_dense_witness :
  nth_error Examples.products 1 = Some "mortgage" /\ 1 = Z.of_nat 1.
Proof.
  apply (LabelMapFacts.label_2_idx_map_dense Examples.products
           LabelMapFacts.products_distinct 1%nat "mortgage" 1).
  reflexivity.
Defined.

Lemma confusion_matrix_shape_whenever_built_witness :
  exists cm,
    build_classification_metrics (invert_label_map Examples.label_map3)
      (map fst Examples.holdout) (map snd Examples.holdout) = Return cm
    /\ length (matrix cm) = len Examples.label_map3.
Proof.
  assert (Hvalues : List.NoDup (values Examples.label_map3)).
  { repeat (constructor; [simpl; intuition discriminate|]). constructor. }
  eexists. split; [reflexivity|].
  refine (proj1 (proj2 (ConfusionMatrixFacts.confusion_matrix_shape_whenever_built
                          Examples.label_map3
                          (map fst Examples.holdout) (map snd Examples.holdout)
                          _ Hvalues eq_refl))).
Defined.

End ProductLabelFacts.

(** ** The confusion matrix: which class a row stands for *)

Module ConfusionMatrixOrderFacts.
Import Exn PyDict Sklearn ModelTest.

Lemma count_cell_examples_with (examples : list (Z * Z)) (t p : Z) :
  count_cell examples t p
  = Z.of_nat (length (List.filter
                        (fun tp => (fst tp =? t) && (snd tp =? p)) examples)).
Proof.
  unfold count_cell. f_equal. f_equal. apply filter_ext. now intros [r c].
Qed.

(** The i-th entry of the map built at submission from distinct
    labels. *)
Lemma label_2_idx_map_entry (unique_label_values : list string) (i : nat) :
  List.NoDup unique_label_values ->
  (i < length unique_label_values)%nat ->
  exists label,
    nth_error (Submit.label_2_idx_map unique_label_values) i
    = Some (label, Z.of_nat i).
Proof.
  intros Hdistinct Hi.
  assert (Hlen : length (Submit.label_2_idx_map unique_label_values)
                 = length unique_label_values).
  { rewrite <- (LabelMapFacts.label_2_idx_map_keys unique_label_values Hdistinct)
      at 2.
    unfold keys. now rewrite length_map. }
  destruct (nth_error (Submit.label_2_idx_map unique_label_values) i)
    as [[label idx]|] eqn:Hentry.
  - exists label. f_equal. f_equal.
    rewrite (LabelMapFacts.label_2_idx_map_distinct unique_label_values Hdistinct)
      in Hentry.
    apply PyDictFacts.nth_error_combine_inv in Hentry as [_ Hidx].
    now apply PyDictFacts.nth_error_indices_inv in Hidx.
  - apply nth_error_None in Hentry. lia.
Qed.

(** The claim C3 as stated, rows and columns in dense index order for
    every label map, does not hold: for the bijective label map
    [{'z': 2, 'y': 1, 'x': 0}] and a test set with the classes 0 and 1
    the matrix is 3 by 3, but its rows and columns follow the entries
    of the map ("z", "y", "x"): row 0 stands for the class 2, which
    never occurs, and is all zero, although one example has the true
    and the predicted class 0; that example is counted in row 2,
    column 2. Nor is the matrix K by K for every label map: the map
    [{'a': 0, 'b': 0}] of size 2 inverts to one entry and gives a 1 by
    1 matrix, and for a test set with a class index the map does not
    know (5, for the three product labels) scikit-learn raises and no
    matrix is built. *)
Lemma rows_in_dense_index_order_counterexample :
  List.NoDup (keys MoreExamples.reversed_label_map)
  /\ List.NoDup (values MoreExamples.reversed_label_map)
  /\ incl (map fst Examples.holdout) (values MoreExamples.reversed_label_map)
  /\ incl (map snd Examples.holdout) (values MoreExamples.reversed_label_map)
  /\ len MoreExamples.merged_label_map = 2%nat
  /\ build_classification_metrics
       (invert_label_map MoreExamples.merged_label_map) [0] [0]
     = Return {| matrix := [[1]]; labels := ["b"] |}
  /\ returns (build_classification_metrics
                (invert_label_map Examples.label_map3) [0] [5])
     = false
  /\ exists cm,
       build_classification_metrics
         (invert_label_map MoreExamples.reversed_label_map)
         (map fst Examples.holdout) (map snd Examples.holdout)
       = Return cm
       /\ labels cm = ["z"; "y"; "x"]
       /\ matrix cm = [[0; 0; 0]; [0; 2; 0]; [0; 1; 1]]
       /\ Z.of_nat (length (List.filter
                              (fun tp => (fst tp =? 0) && (snd tp =? 0))
                              Examples.holdout)) = 1
       /\ cell (matrix cm) 0 0 = 0
       /\ cell (matrix cm) 0 0
          <> Z.of_nat (length (List.filter
                                 (fun tp => (fst tp =? 0) && (snd tp =? 0))
                                 Examples.holdout))
       /\ cell (matrix cm) 2 2 = 1.
Proof.
  split.
  { repeat (constructor; [simpl; intuition discriminate|]). constructor. }
  split.
  { repeat (constructor; [simpl; intuition discriminate|]). constructor. }
  split.
  { intros t Ht. simpl in *. intuition. }
  split.
  { intros p Hp. simpl in *. intuition. }
  split; [reflexivity|].
  split; [vm_compute; reflexivity|].
  split; [vm_compute; reflexivity|].
  eexists. split; [vm_compute; reflexivity|].
  vm_compute. repeat split; discriminate.
Qed.

(** C3 (amended). For every label map of size K that is a bijection
    and every test set whose class indices the map knows, the confusion
    matrix built by the component is K by K with rows and columns in
    the order of the entries of the label map (the order of
    [idx_2_label_map.values()]): its labels are the label names in that
    order, and row i, column j holds the number of examples whose true
    class is the index of the i-th entry and whose predicted class is
    the index of the j-th entry; so a label never observed among the
    true or the predicted classes still has its all-zero row and
    column. For the label map built at submission from pairwise
    distinct labels, the i-th entry has the index i, and this order is
    dense index order. *)
Theorem confusion_matrix_in_label_map_order
  (label_map : dict string Z) (examples : list (Z * Z)) :
  List.NoDup (keys label_map) ->
  List.NoDup (values label_map) ->
  label_map <> [] ->
  (forall t p, In (t, p) examples ->
               In t (values label_map) /\ In p (values label_map)) ->
  exists cm,
    build_classification_metrics (invert_label_map label_map)
      (map fst examples) (map snd examples) = Return cm
    /\ labels cm = keys label_map
    /\ length (matrix cm) = len label_map
    /\ Forall (fun row => length row = len label_map) (matrix cm)
    /\ (forall i j name_i idx_i name_j idx_j,
          nth_error label_map i = Some (name_i, idx_i) ->
          nth_error label_map j = Some (name_j, idx_j) ->
          nth_error (labels cm) i = Some name_i
          /\ nth_error (labels cm) j = Some name_j
          /\ cell (matrix cm) i j
             = Z.of_nat (length (List.filter
                                   (fun tp => (fst tp =? idx_i)
                                              && (snd tp =? idx_j))
                                   examples))
          /\ (~ In idx_i (map fst examples) -> cell (matrix cm) i j = 0)
          /\ (~ In idx_j (map snd examples) -> cell (matrix cm) i j = 0))
    /\ (forall unique_label_values,
          List.NoDup unique_label_values ->
          label_map = Submit.label_2_idx_map unique_label_values ->
          labels cm = unique_label_values
          /\ forall i j,
               (i < length unique_label_values)%nat ->
               (j < length unique_label_values)%nat ->
               cell (matrix cm) i j
               = Z.of_nat (length (List.filter
                                     (fun tp => (fst tp =? Z.of_nat i)
                                                && (snd tp =? Z.of_nat j))
                                     examples))).
Proof.
  intros Hkeys Hvalues Hne Hknown.
  destruct (MatrixTotalFacts.classification_metrics_built label_map examples
              Hkeys Hvalues Hne Hknown) as (cells & Hbuilt & Hcount).
  assert (Hcell : forall i j name_i idx_i name_j idx_j,
             nth_error label_map i = Some (name_i, idx_i) ->
             nth_error label_map j = Some (name_j, idx_j) ->
             cell (coo_toarray (length label_map) cells) i j
             = count_cell examples idx_i idx_j).
  { intros i j name_i idx_i name_j idx_j Hi Hj.
    rewrite ConfusionMatrixFacts.coo_toarray_cell.
    - eapply Hcount; eassumption.
    - apply nth_error_Some. congruence.
    - apply nth_error_Some. congruence. }
  eexists. split; [exact Hbuilt|]. simpl.
  split; [reflexivity|].
  split; [apply ConfusionMatrixFacts.coo_toarray_length|].
  split; [apply ConfusionMatrixFacts.coo_toarray_row_length|].
  split.
  - intros i j name_i idx_i name_j idx_j Hi Hj.
    split; [unfold keys; now rewrite nth_error_map, Hi|].
    split; [unfold keys; now rewrite nth_error_map, Hj|].
    rewrite (Hcell i j name_i idx_i name_j idx_j Hi Hj).
    split; [apply count_cell_examples_with|].
    split; intros Habsent.
    + now apply ConfusionMatrixFacts.count_cell_absent_row.
    + now apply ConfusionMatrixFacts.count_cell_absent_column.
  - intros unique_label_values Hdistinct ->.
    split; [now apply LabelMapFacts.label_2_idx_map_keys|].
    intros i j Hi Hj.
    destruct (label_2_idx_map_entry unique_label_values i Hdistinct Hi)
      as (name_i & Hentry_i).
    destruct (label_2_idx_map_entry unique_label_values j Hdistinct Hj)
      as (name_j & Hentry_j).
    rewrite (Hcell i j name_i (Z.of_nat i) name_j (Z.of_nat j) Hentry_i Hentry_j).
    apply count_cell_examples_with.
Qed.

Lemma confusion_matrix_in_label_map_order_witness :
  exists cm,
    build_classification_metrics (invert_label_map Examples.label_map3)
      (map fst Examples.holdout) (map snd Examples.holdout) = Return cm
    /\ labels cm = keys Examples.label_map3
    /\ length (matrix cm) = len Examples.label_map3.
Proof.
  assert (Hkeys : List.NoDup (keys Examples.label_map3)).
  { repeat (constructor; [simpl; intuition discriminate|]). constructor. }
  assert (Hvalues : List.NoDup (values Examples.label_map3)).
  { repeat (constructor; [simpl; intuition discriminate|]). constructor. }
  assert (Hne : Examples.label_map3 <> []) by discriminate.
  assert (Hknown : forall t p, In (t, p) Examples.holdout ->
                               In t (values Examples.label_map3)
                               /\ In p (values Examples.label_map3)).
  { intros t p Hin. simpl in Hin.
    repeat (destruct Hin as [[= <- <-]|Hin]; [simpl; tauto|]).
    contradiction. }
  destruct (confusion_matrix_in_label_map_order Examples.label_map3
              Examples.holdout Hkeys Hvalues Hne Hknown)
    as (cm & Hcm & Hlabels & Hrows & _).
  exists cm. repeat split; assumption.
Defined.

End ConfusionMatrixOrderFacts.
